(** * Azure Data Studio extensions: a shallow embedding of selected operations

    The development follows the TypeScript sources module by module:

    - [Promise]: outcomes of [async] functions and [try]/[catch];
    - [Project]: the [.sqlproj] project model exercised by [project.test.ts];
    - [Validations]: the comparison validations exercised by the validation
      test-suite;
    - [JupyterServerInstallation]: the installation state machine and the
      package listing functions of [jupyterServerInstallation.ts];
    - [UserDataAutoSync]: the channel proxy [UserDataAutoSyncService];
    - [AzureResourceCommands]: the [azure.resource.selectsubscriptions] command;
    - [NewProjectDialog]: [NewProjectDialog.validate];
    - [ConnectionBrowse]: [DataSource] and [ConnectionBrowserView.expandAll]. *)

From Stdlib Require Import ZArith QArith Lia Ascii.
From stdpp Require Import base option list strings gmap.

Set Default Proof Using "Type".
#[local] Set Warnings "-clear-no-such-hyp".

(** ** Promises

    An [async] function either resolves with a value or rejects with the value
    that was thrown.  [E] is the type of thrown values. *)
Module Promise.

Inductive Outcome (E A : Type) : Type :=
| Resolved (a : A)
| Rejected (e : E).
Arguments Resolved {E A} a.
Arguments Rejected {E A} e.

Definition isResolved {E A} (m : Outcome E A) : bool :=
  match m with Resolved _ => true | Rejected _ => false end.

(** An [async] method running against a state [S] (an output channel, a
    dialog): the outcome of its promise and the state it leaves. *)
Definition Task (S E A : Type) : Type := S → Outcome E A * S.

Definition ret {S E A} (a : A) : Task S E A := fun s => (Resolved a, s).

Definition throw {S E A} (e : E) : Task S E A := fun s => (Rejected e, s).

Definition bind {S E A B} (m : Task S E A) (k : A → Task S E B) : Task S E B :=
  fun s =>
    match m s with
    | (Resolved a, s') => k a s'
    | (Rejected e, s') => (Rejected e, s')
    end.

(** [await p], where [p] settles without touching the state. *)
Definition await {S E A} (p : Outcome E A) : Task S E A := fun s => (p, s).

(** [try { body } catch (err) { handler err }] *)
Definition tryCatch {S E A} (body : Task S E A) (handler : E → Task S E A) : Task S E A :=
  fun s =>
    match body s with
    | (Resolved a, s') => (Resolved a, s')
    | (Rejected e, s') => handler e s'
    end.

(** A statement with an effect on the state only. *)
Definition modify {S E} (f : S → S) : Task S E () := fun s => (Resolved (), f s).

(** What the method sees of the state at this point. *)
Definition gets {S E A} (f : S → A) : Task S E A := fun s => (Resolved (f s), s).

End Promise.

(** [x ← m; k] and [mret] of stdpp read as sequencing in [Task]. *)
#[export] Instance task_ret {S E} : MRet (Promise.Task S E) := @Promise.ret S E.
#[export] Instance task_bind {S E} : MBind (Promise.Task S E) :=
  fun A B k m => Promise.bind m k.

(** ** Arrays *)
Module JsArray.

(** [Array.prototype.indexOf]: the first index holding [x], or [-1]. *)
Fixpoint indexOfFrom `{EqDecision A} (l : list A) (x : A) (i : Z) : Z :=
  match l with
  | [] => (-1)%Z
  | y :: rest => if bool_decide (y = x) then i else indexOfFrom rest x (i + 1)%Z
  end.

Definition indexOf `{EqDecision A} (l : list A) (x : A) : Z := indexOfFrom l x 0.

Lemma indexOfFrom_found `{EqDecision A} (l : list A) (x : A) : ∀ i, (0 <= i)%Z →
  indexOfFrom l x i ≠ (-1)%Z ↔ x ∈ l.
Proof.
  induction l as [|y rest IH]; intros i Hi; simpl.
  - split; [done|]. by intros ?%elem_of_nil.
  - case_bool_decide as Hy.
    + subst y. split; [intros _; left|intros _; lia].
    + rewrite IH by lia. rewrite elem_of_cons. naive_solver.
Qed.

Lemma indexOf_found `{EqDecision A} (l : list A) (x : A) :
  indexOf l x ≠ (-1)%Z ↔ x ∈ l.
Proof. by apply indexOfFrom_found. Qed.

Lemma indexOf_missing `{EqDecision A} (l : list A) (x : A) :
  indexOf l x = (-1)%Z ↔ x ∉ l.
Proof.
  rewrite <- indexOf_found. destruct (decide (indexOf l x = (-1)%Z)); naive_solver.
Qed.

End JsArray.

(** ** The SQL project model ([models/project.ts])

    [project.test.ts] drives a [Project] through [addSqlCmdVariable],
    [addSystemDatabaseReference], [addDatabaseReference] and
    [updateProjectForRoundTrip]. *)
Module Project.

Inductive ProjectError :=
| databaseReferenceAlreadyExists
| fileDoesNotExist (path : string).

Inductive ReferenceKind := SystemDatabaseReference | DacpacReference.

Record DatabaseReferenceEntry := {
  referenceKind : ReferenceKind;
  databaseName : string;
  pathForSqlProj : string;
  suppressMissingDependenciesErrors : bool
}.

Inductive SystemDatabase := master | msdb.

Record ISystemDatabaseReferenceSettings := {
  systemDatabaseName : string;
  systemDb : SystemDatabase;
  systemSuppressMissingDependenciesErrors : bool
}.

Record IDacpacReferenceSettings := {
  dacpacFileLocation : string;
  dacpacSuppressMissingDependenciesErrors : bool
}.

(** One [<Import Condition=... Project=... />] element of the project file. *)
Record Import := {
  importCondition : string;
  importProject : string
}.

(** The project file's XML document: its [Import] elements, and the rest. *)
Record ProjFile := {
  fileImports : list Import;
  fileRest : string
}.

Record Project := {
  projectFilePath : string;
  databaseReferences : list DatabaseReferenceEntry;
  sqlCmdVariables : gmap string string;
  importedTargets : list string
}.

(** The file system, as far as project files are concerned. *)
Record World := {
  files : gmap string ProjFile;
  project : Project
}.

(** *** SQLCMD variables *)

(** Modelled from the spec: [Project.addSqlCmdVariable] lives in
    [models/project.ts], which is not among the sources; only its test is.
    The variable table is a JS object keyed by variable name, and adding a
    name writes that key: [this.sqlCmdVariables[name] = defaultValue]. *)
Definition addSqlCmdVariable (name defaultValue : string) (p : Project) : Project :=
  {| projectFilePath := projectFilePath p;
     databaseReferences := databaseReferences p;
     sqlCmdVariables := <[name := defaultValue]> (sqlCmdVariables p);
     importedTargets := importedTargets p |}.

(** A sequence of calls, oldest first. *)
Definition addSqlCmdVariables (calls : list (string * string)) (p : Project) : Project :=
  foldl (fun q c => addSqlCmdVariable c.1 c.2 q) p calls.

(** The value most recently added under [name] by [calls], if any. *)
Fixpoint lastAdded (name : string) (calls : list (string * string)) : option string :=
  match calls with
  | [] => None
  | (n, v) :: rest =>
      match lastAdded name rest with
      | Some w => Some w
      | None => if decide (n = name) then Some v else None
      end
  end.

(** *** Database references *)

Definition withDatabaseReferences (refs : list DatabaseReferenceEntry) (p : Project) : Project :=
  {| projectFilePath := projectFilePath p;
     databaseReferences := refs;
     sqlCmdVariables := sqlCmdVariables p;
     importedTargets := importedTargets p |}.

Section DatabaseReferences.
(** When two references count as the same one, where the dacpac of a system
    database lives and how a dacpac's database is named are decided in
    [models/project.ts]; the model takes them as they come. *)
Context (sameReference : DatabaseReferenceEntry → DatabaseReferenceEntry → bool)
        (systemDacpacPath : SystemDatabase → string)
        (dacpacDatabaseName : string → string).

Definition databaseReferenceExists (entry : DatabaseReferenceEntry) (p : Project) : bool :=
  existsb (sameReference entry) (databaseReferences p).

(** Modelled from the spec: the shared tail of [addSystemDatabaseReference]
    and [addDatabaseReference] in the absent [models/project.ts].  An
    equivalent reference makes the call throw
    [databaseReferenceAlreadyExists] before anything is written; otherwise
    the entry is pushed onto [databaseReferences].  The result is the
    promise's outcome together with the project afterwards. *)
Definition addDatabaseReferenceEntry (entry : DatabaseReferenceEntry) (p : Project)
  : Promise.Outcome ProjectError () * Project :=
  if databaseReferenceExists entry p
  then (Promise.Rejected databaseReferenceAlreadyExists, p)
  else (Promise.Resolved (), withDatabaseReferences (databaseReferences p ++ [entry]) p).

Definition systemDatabaseReferenceEntry (settings : ISystemDatabaseReferenceSettings)
  : DatabaseReferenceEntry :=
  {| referenceKind := SystemDatabaseReference;
     databaseName := systemDatabaseName settings;
     pathForSqlProj := systemDacpacPath (systemDb settings);
     suppressMissingDependenciesErrors := systemSuppressMissingDependenciesErrors settings |}.

Definition dacpacReferenceEntry (settings : IDacpacReferenceSettings)
  : DatabaseReferenceEntry :=
  {| referenceKind := DacpacReference;
     databaseName := dacpacDatabaseName (dacpacFileLocation settings);
     pathForSqlProj := dacpacFileLocation settings;
     suppressMissingDependenciesErrors := dacpacSuppressMissingDependenciesErrors settings |}.

(** Modelled from the spec: [Project.addSystemDatabaseReference]. *)
Definition addSystemDatabaseReference (settings : ISystemDatabaseReferenceSettings)
  : Project → Promise.Outcome ProjectError () * Project :=
  addDatabaseReferenceEntry (systemDatabaseReferenceEntry settings).

(** Modelled from the spec: [Project.addDatabaseReference]. *)
Definition addDatabaseReference (settings : IDacpacReferenceSettings)
  : Project → Promise.Outcome ProjectError () * Project :=
  addDatabaseReferenceEntry (dacpacReferenceEntry settings).
End DatabaseReferences.

(** The choices under which the test 'Should not allow adding duplicate
    database references' is replayed: references are the same when their
    project-file paths are, and [test.dacpac] names the database [test]. *)
Definition samePathForSqlProj (a b : DatabaseReferenceEntry) : bool :=
  bool_decide (pathForSqlProj a = pathForSqlProj b).

Definition testSystemDacpacPath (db : SystemDatabase) : string :=
  match db with
  | master => "SystemDacpacs/master.dacpac"
  | msdb => "SystemDacpacs/msdb.dacpac"
  end.

Definition testDacpacDatabaseName (location : string) : string :=
  if decide (location = "test.dacpac") then "test" else location.

Definition newProjectBaseline : Project :=
  {| projectFilePath := "TestProject.sqlproj";
     databaseReferences := [];
     sqlCmdVariables := ∅;
     importedTargets := [] |}.

Definition masterSettings : ISystemDatabaseReferenceSettings :=
  {| systemDatabaseName := "master"; systemDb := master;
     systemSuppressMissingDependenciesErrors := false |}.

Definition testDacpacSettings : IDacpacReferenceSettings :=
  {| dacpacFileLocation := "test.dacpac";
     dacpacSuppressMissingDependenciesErrors := false |}.

(** *** Round trip *)

Definition NetCoreCondition : string :=
  "'$(NetCoreBuild)' == 'true'".
Definition NetCoreTargets : string :=
  "$(NETCoreTargetsPath)\Microsoft.Data.Tools.Schema.SqlTasks.targets".

Definition withImportedTargets (targets : list string) (p : Project) : Project :=
  {| projectFilePath := projectFilePath p;
     databaseReferences := databaseReferences p;
     sqlCmdVariables := sqlCmdVariables p;
     importedTargets := targets |}.

(** [fs.copyFile(src, dest)] *)
Definition copyFile (src dest : string) (w : World)
  : Promise.Outcome ProjectError () * World :=
  match files w !! src with
  | None => (Promise.Rejected (fileDoesNotExist src), w)
  | Some content =>
      (Promise.Resolved (), {| files := <[dest := content]> (files w); project := project w |})
  end.

(** Modelled from the spec: the step of [updateProjectForRoundTrip] that
    edits the project: one further [Import] goes into the document, its
    target is pushed onto [importedTargets] and the document is written back
    to the project file. *)
Definition updateImportToSupportRoundTrip (w : World)
  : Promise.Outcome ProjectError () * World :=
  let path := projectFilePath (project w) in
  match files w !! path with
  | None => (Promise.Rejected (fileDoesNotExist path), w)
  | Some doc =>
      let added := {| importCondition := NetCoreCondition; importProject := NetCoreTargets |} in
      let doc' := {| fileImports := fileImports doc ++ [added]; fileRest := fileRest doc |} in
      (Promise.Resolved (),
       {| files := <[path := doc']> (files w);
          project := withImportedTargets (importedTargets (project w) ++ [NetCoreTargets])
                       (project w) |})
  end.

(** Modelled from the spec: [Project.updateProjectForRoundTrip] of the absent
    [models/project.ts]: the project file is first copied to the same path
    with [_backup] appended, then the project is updated. *)
Definition updateProjectForRoundTrip (w : World)
  : Promise.Outcome ProjectError () * World :=
  let path := projectFilePath (project w) in
  match copyFile path (path +:+ "_backup") w with
  | (Promise.Rejected e, w1) => (Promise.Rejected e, w1)
  | (Promise.Resolved _, w1) => updateImportToSupportRoundTrip w1
  end.

(** An SSDT project as 'Should update SSDT project to work in ADS' opens
    it: two imported targets. *)
Definition SSDTProjectFile : ProjFile :=
  {| fileImports :=
       [ {| importCondition := "'$(SQLDBExtensionsRefPath)' != ''";
            importProject := "$(SQLDBExtensionsRefPath)\Microsoft.Data.Tools.Schema.SqlTasks.targets" |};
         {| importCondition := "'$(SQLDBExtensionsRefPath)' == ''";
            importProject := "$(MSBuildExtensionsPath)\Microsoft\VisualStudio\v$(VisualStudioVersion)\SSDT\Microsoft.Data.Tools.Schema.SqlTasks.targets" |} ];
     fileRest := "" |}.

Definition SSDTWorld : World :=
  {| files := {[ "TestProject.sqlproj" := SSDTProjectFile ]};
     project :=
       {| projectFilePath := "TestProject.sqlproj";
          databaseReferences := [];
          sqlCmdVariables := ∅;
          importedTargets := importProject <$> fileImports SSDTProjectFile |} |}.

(** [exists(path)] of [common/utils] *)
Definition fileExists (path : string) (w : World) : bool :=
  bool_decide (is_Some (files w !! path)).

Lemma sqlCmdVariables_add name v p :
  sqlCmdVariables (addSqlCmdVariable name v p) = <[name := v]> (sqlCmdVariables p).
Proof. reflexivity. Qed.

Lemma addSqlCmdVariables_cons n v rest p :
  addSqlCmdVariables ((n, v) :: rest) p =
  addSqlCmdVariables rest (addSqlCmdVariable n v p).
Proof. reflexivity. Qed.

Lemma addSqlCmdVariables_lookup calls : ∀ p name,
  sqlCmdVariables (addSqlCmdVariables calls p) !! name =
    match lastAdded name calls with
    | Some v => Some v
    | None => sqlCmdVariables p !! name
    end.
Proof.
  induction calls as [|[n v] rest IH]; intros p name; [done|].
  rewrite addSqlCmdVariables_cons, IH. cbn [lastAdded].
  destruct (lastAdded name rest) as [w|]; [done|].
  rewrite sqlCmdVariables_add.
  destruct (decide (n = name)) as [->|Hne].
  - by rewrite lookup_insert_eq.
  - by rewrite lookup_insert_ne.
Qed.

Lemma addSqlCmdVariables_dom calls : ∀ p,
  dom (sqlCmdVariables (addSqlCmdVariables calls p)) =
    dom (sqlCmdVariables p) ∪ list_to_set calls.*1.
Proof.
  induction calls as [|[n v] rest IH]; intros p.
  - cbn. by rewrite (right_id_L ∅ (∪)).
  - rewrite addSqlCmdVariables_cons, IH, sqlCmdVariables_add, dom_insert_L.
    cbn. by rewrite (assoc_L (∪)), (comm_L (∪) {[n]}).
Qed.

(** The scenario of 'Should update .sqlproj with new sqlcmd variables'. *)
Definition openedBaselineProject : Project :=
  {| projectFilePath := "TestProject.sqlproj";
     databaseReferences := [];
     sqlCmdVariables :=
       <["ProdDatabaseName" := "MyProdDatabase"]>
         (<["BackupDatabaseName" := "MyBackupDatabase"]> ∅);
     importedTargets := [] |}.

Example addSqlCmdVariable_test :
  let p := addSqlCmdVariables
             [("TestDatabaseName", "TestDb"); ("ProdDatabaseName", "NewProdName")]
             openedBaselineProject in
  size (sqlCmdVariables openedBaselineProject) = 2 ∧
  size (sqlCmdVariables p) = 3 ∧
  sqlCmdVariables p !! "TestDatabaseName" = Some "TestDb" ∧
  sqlCmdVariables p !! "ProdDatabaseName" = Some "NewProdName".
Proof. vm_compute. done. Qed.

(** C4. Adding a SQLCMD variable under an existing name replaces its value
    and adds no entry: after any sequence of [addSqlCmdVariable] calls every
    added name maps to the value most recently added for it, names that were
    not added keep their value, and the number of variables is the number of
    distinct names among those present before and those added; starting from
    no variables it is the number of distinct names added. *)
Theorem addSqlCmdVariable_last_write_wins (p : Project) (calls : list (string * string)) :
  let p' := addSqlCmdVariables calls p in
  (∀ name old new, sqlCmdVariables p !! name = Some old →
     sqlCmdVariables (addSqlCmdVariable name new p) !! name = Some new ∧
     size (sqlCmdVariables (addSqlCmdVariable name new p)) = size (sqlCmdVariables p)) ∧
  (∀ name v, lastAdded name calls = Some v → sqlCmdVariables p' !! name = Some v) ∧
  (∀ name, lastAdded name calls = None →
     sqlCmdVariables p' !! name = sqlCmdVariables p !! name) ∧
  size (sqlCmdVariables p') =
    size (dom (sqlCmdVariables p) ∪ list_to_set (C := gset string) calls.*1) ∧
  (sqlCmdVariables p = ∅ →
     size (sqlCmdVariables p') = length (remove_dups calls.*1)).
Proof.
  intros p'. subst p'. split_and!.
  - intros name old new Hold. rewrite sqlCmdVariables_add. split.
    + apply lookup_insert_eq.
    + rewrite <- !size_dom, dom_insert_L. f_equal.
      apply elem_of_dom_2 in Hold. apply subseteq_union_1_L.
      by apply singleton_subseteq_l.
  - intros name v Hlast. by rewrite addSqlCmdVariables_lookup, Hlast.
  - intros name Hlast. by rewrite addSqlCmdVariables_lookup, Hlast.
  - by rewrite <- size_dom, addSqlCmdVariables_dom.
  - intros Hempty.
    rewrite <- size_dom, addSqlCmdVariables_dom, Hempty, dom_empty_L, (left_id_L ∅ (∪)).
    rewrite <- (size_list_to_set (C := gset string) (remove_dups calls.*1))
      by apply NoDup_remove_dups.
    f_equal. apply set_eq. intros x.
    by rewrite !elem_of_list_to_set, elem_of_remove_dups.
Qed.

Lemma addSqlCmdVariable_last_write_wins_witness :
  sqlCmdVariables (addSqlCmdVariable "ProdDatabaseName" "NewProdName" openedBaselineProject)
    !! "ProdDatabaseName" = Some "NewProdName" ∧
  size (sqlCmdVariables
          (addSqlCmdVariable "ProdDatabaseName" "NewProdName" openedBaselineProject)) = 2.
Proof.
  pose proof (addSqlCmdVariable_last_write_wins openedBaselineProject []) as H.
  cbv zeta in H. destruct H as [H _].
  destruct (H "ProdDatabaseName" "MyProdDatabase" "NewProdName") as [H1 H2].
  - vm_compute. reflexivity.
  - split; [exact H1|]. rewrite H2. vm_compute. reflexivity.
Defined.

(** *** Duplicate database references *)

Lemma addDatabaseReferenceEntry_fresh sameReference entry p :
  databaseReferenceExists sameReference entry p = false →
  addDatabaseReferenceEntry sameReference entry p =
    (Promise.Resolved (), withDatabaseReferences (databaseReferences p ++ [entry]) p).
Proof. unfold addDatabaseReferenceEntry. by intros ->. Qed.

Lemma addDatabaseReferenceEntry_duplicate sameReference entry p :
  databaseReferenceExists sameReference entry p = true →
  addDatabaseReferenceEntry sameReference entry p =
    (Promise.Rejected databaseReferenceAlreadyExists, p).
Proof. unfold addDatabaseReferenceEntry. by intros ->. Qed.

(** Whatever the outcome, a call adds at most the requested entry. *)
Lemma addDatabaseReferenceEntry_references sameReference entry p :
  databaseReferences (addDatabaseReferenceEntry sameReference entry p).2 =
    if databaseReferenceExists sameReference entry p
    then databaseReferences p
    else databaseReferences p ++ [entry].
Proof.
  unfold addDatabaseReferenceEntry.
  by destruct (databaseReferenceExists sameReference entry p).
Qed.

(** The test 'Should not allow adding duplicate database references'. *)
Example addDatabaseReference_test :
  let addSystem := addSystemDatabaseReference samePathForSqlProj testSystemDacpacPath in
  let addDacpac := addDatabaseReference samePathForSqlProj testDacpacDatabaseName in
  let r1 := addSystem masterSettings newProjectBaseline in
  let r2 := addSystem masterSettings r1.2 in
  let r3 := addDacpac testDacpacSettings r2.2 in
  let r4 := addDacpac testDacpacSettings r3.2 in
  length (databaseReferences newProjectBaseline) = 0 ∧
  r1.1 = Promise.Resolved () ∧
  databaseName <$> databaseReferences r1.2 = ["master"] ∧
  r2.1 = Promise.Rejected databaseReferenceAlreadyExists ∧
  length (databaseReferences r2.2) = 1 ∧
  r3.1 = Promise.Resolved () ∧
  databaseName <$> databaseReferences r3.2 = ["master"; "test"] ∧
  r4.1 = Promise.Rejected databaseReferenceAlreadyExists ∧
  length (databaseReferences r4.2) = 2.
Proof. vm_compute. done. Qed.

(** C2. When a reference equivalent to the requested one is already among
    the project's database references, [addSystemDatabaseReference] and
    [addDatabaseReference] fail with [databaseReferenceAlreadyExists] and
    leave the project, its [databaseReferences] included, as it was. *)
Theorem add_existing_database_reference_fails
    (sameReference : DatabaseReferenceEntry → DatabaseReferenceEntry → bool)
    (systemDacpacPath : SystemDatabase → string)
    (dacpacDatabaseName : string → string)
    (p : Project) :
  (∀ settings : ISystemDatabaseReferenceSettings,
     databaseReferenceExists sameReference
       (systemDatabaseReferenceEntry systemDacpacPath settings) p = true →
     addSystemDatabaseReference sameReference systemDacpacPath settings p =
       (Promise.Rejected databaseReferenceAlreadyExists, p)) ∧
  (∀ settings : IDacpacReferenceSettings,
     databaseReferenceExists sameReference
       (dacpacReferenceEntry dacpacDatabaseName settings) p = true →
     addDatabaseReference sameReference dacpacDatabaseName settings p =
       (Promise.Rejected databaseReferenceAlreadyExists, p)).
Proof.
  split; intros settings Hexists;
    [unfold addSystemDatabaseReference | unfold addDatabaseReference];
    by apply addDatabaseReferenceEntry_duplicate.
Qed.

Lemma add_existing_database_reference_fails_witness :
  let p := (addSystemDatabaseReference samePathForSqlProj testSystemDacpacPath
              masterSettings newProjectBaseline).2 in
  addSystemDatabaseReference samePathForSqlProj testSystemDacpacPath masterSettings p =
    (Promise.Rejected databaseReferenceAlreadyExists, p).
Proof.
  intros p.
  apply (add_existing_database_reference_fails
           samePathForSqlProj testSystemDacpacPath testDacpacDatabaseName p).
  vm_compute. reflexivity.
Defined.

(** *** Round trip *)

Lemma string_length_app (s t : string) :
  String.length (s +:+ t) = String.length s + String.length t.
Proof. induction s as [|c s IH]; simpl; [done|]. by rewrite IH. Qed.

Lemma backup_path_differs (path : string) : path +:+ "_backup" ≠ path.
Proof.
  intros Heq. apply (f_equal String.length) in Heq.
  rewrite string_length_app in Heq. simpl in Heq. lia.
Qed.

Lemma copyFile_existing src dest w content :
  files w !! src = Some content →
  copyFile src dest w =
    (Promise.Resolved (), {| files := <[dest := content]> (files w); project := project w |}).
Proof. unfold copyFile. by intros ->. Qed.

(** C3. For a project with two imported targets whose project file exists,
    [updateProjectForRoundTrip] first copies the project file to its path
    with [_backup] appended, the project file and the project being still
    untouched at that point, and then updates the project: the call
    resolves, the backup holds the project file as it was before the call,
    and [importedTargets] has grown from two entries to three. *)
Theorem updateProjectForRoundTrip_backs_up_then_adds_target
    (w : World) (original : ProjFile) :
  let path := projectFilePath (project w) in
  files w !! path = Some original →
  length (importedTargets (project w)) = 2 →
  ∃ w1 w2,
    copyFile path (path +:+ "_backup") w = (Promise.Resolved (), w1) ∧
    files w1 !! (path +:+ "_backup") = Some original ∧
    files w1 !! path = Some original ∧
    project w1 = project w ∧
    updateImportToSupportRoundTrip w1 = (Promise.Resolved (), w2) ∧
    updateProjectForRoundTrip w = (Promise.Resolved (), w2) ∧
    fileExists (path +:+ "_backup") w2 = true ∧
    files w2 !! (path +:+ "_backup") = Some original ∧
    files w2 !! path ≠ Some original ∧
    length (importedTargets (project w2)) = 3 ∧
    length (importedTargets (project w2)) = S (length (importedTargets (project w))).
Proof.
  intros path Hfile Htargets.
  pose proof (backup_path_differs path) as Hne.
  eexists _, _. split; [by apply copyFile_existing|].
  cbn [files project].
  assert (Hfile1 : (<[path +:+ "_backup" := original]> (files w)) !! path = Some original)
    by (by rewrite lookup_insert_ne).
  split; [by rewrite lookup_insert_eq|].
  split; [done|]. split; [done|].
  unfold updateProjectForRoundTrip, updateImportToSupportRoundTrip. fold path.
  rewrite (copyFile_existing _ _ _ _ Hfile). cbn [files project]. fold path.
  rewrite Hfile1. split; [reflexivity|]. split; [reflexivity|].
  unfold fileExists. cbn [files project importedTargets withImportedTargets].
  rewrite lookup_insert_ne by done. rewrite !lookup_insert_eq.
  split; [by apply bool_decide_eq_true|]. split; [done|].
  split.
  - intros [= Hdoc]. apply (f_equal fileImports), (f_equal length) in Hdoc.
    cbn in Hdoc. rewrite length_app in Hdoc. cbn in Hdoc. lia.
  - rewrite length_app, Htargets. done.
Qed.

Lemma updateProjectForRoundTrip_backs_up_then_adds_target_witness :
  ∃ w2,
    updateProjectForRoundTrip SSDTWorld = (Promise.Resolved (), w2) ∧
    fileExists "TestProject.sqlproj_backup" w2 = true ∧
    files w2 !! "TestProject.sqlproj_backup" = Some SSDTProjectFile ∧
    length (importedTargets (project w2)) = 3.
Proof.
  destruct (updateProjectForRoundTrip_backs_up_then_adds_target SSDTWorld SSDTProjectFile)
    as (w1 & w2 & _ & _ & _ & _ & _ & Hrun & Hexists & Hbackup & _ & Hthree & _).
  - vm_compute. reflexivity.
  - vm_compute. reflexivity.
  - exists w2. split_and!; assumption.
Defined.

End Project.

(** ** Comparison validations ([ui/validation/validations.ts])

    The validation test-suite builds [LessThanOrEqualsValidation] and
    [GreaterThanOrEqualsValidation] over a value getter and a getter for the
    target variable, and checks [validate()]. *)
Module Validations.

(** JS numbers.  Every finite double is a rational, and doubles compare as
    their values do, so [Finite] carries the value. *)
Inductive JsNumber :=
| NaN
| NegInfinity
| Finite (q : Q)
| PosInfinity.

(** [type ValidationValueType = string | number | undefined] *)
Inductive ValidationValueType :=
| VUndefined
| VString (s : string)
| VNumber (n : JsNumber).

Record ValidationInfo := {
  description : string;
  target : string
}.

Record ValidationResult := {
  valid : bool;
  message : option string
}.

(** A comparison validation: its info, the value getter's result and the
    getter from variable names to values. *)
Record Comparison := {
  info : ValidationInfo;
  valueGetter : ValidationValueType;
  variableToValueGetter : string → ValidationValueType
}.

(** [<] on two rationals. *)
Definition Qltb (a b : Q) : bool :=
  match (a ?= b)%Q with Lt => true | _ => false end.

(** The native [<=] and [>=] of numbers: false as soon as a side is [NaN]. *)
Definition number_leb (x y : JsNumber) : bool :=
  match x, y with
  | NaN, _ | _, NaN => false
  | NegInfinity, _ => true
  | _, PosInfinity => true
  | Finite a, Finite b => Qle_bool a b
  | _, _ => false
  end.

Definition number_geb (x y : JsNumber) : bool := number_leb y x.

Section Comparisons.
(** The conversion of a string to a number (rounding included) is the
    language's; the comparisons only call it. *)
Variable StringToNumber : string → JsNumber.

Definition ToNumber (v : ValidationValueType) : JsNumber :=
  match v with
  | VUndefined => NaN
  | VString s => StringToNumber s
  | VNumber n => n
  end.

(** [x < y] on numbers; [None] is the language's [undefined] result, when
    a side is [NaN]. *)
Definition number_lt (x y : JsNumber) : option bool :=
  match x, y with
  | NaN, _ | _, NaN => None
  | NegInfinity, NegInfinity => Some false
  | NegInfinity, _ => Some true
  | _, NegInfinity => Some false
  | PosInfinity, _ => Some false
  | _, PosInfinity => Some true
  | Finite a, Finite b => Some (Qltb a b)
  end.

(** The relational comparison behind [<], [<=], [>] and [>=]: two strings
    compare by code units, anything else as numbers. *)
Definition lessThan (x y : ValidationValueType) : option bool :=
  match x, y with
  | VString s, VString t => Some (String.ltb s t)
  | _, _ => number_lt (ToNumber x) (ToNumber y)
  end.

(** [x <= y] is [!(y < x)], and false when that comparison is undefined. *)
Definition lessThanOrEquals (x y : ValidationValueType) : bool :=
  match lessThan y x with
  | Some false => true
  | _ => false
  end.

(** [x >= y] is [!(x < y)], and false when that comparison is undefined. *)
Definition greaterThanOrEquals (x y : ValidationValueType) : bool :=
  match lessThan x y with
  | Some false => true
  | _ => false
  end.

Definition validateComparison
    (isComparisonSuccessful : ValidationValueType → ValidationValueType → bool)
    (c : Comparison) : ValidationResult :=
  let value := valueGetter c in
  let targetValue := variableToValueGetter c (target (info c)) in
  if isComparisonSuccessful value targetValue
  then {| valid := true; message := None |}
  else {| valid := false; message := Some (description (info c)) |}.

(** Modelled from the spec: [LessThanOrEqualsValidation.validate] of the
    absent [validations.ts]: the value is compared to the target
    variable's value with the language's own [<=]; an invalid result
    carries the validation's description. *)
Definition LessThanOrEqualsValidation : Comparison → ValidationResult :=
  validateComparison lessThanOrEquals.

(** Modelled from the spec: [GreaterThanOrEqualsValidation.validate],
    likewise with [>=]. *)
Definition GreaterThanOrEqualsValidation : Comparison → ValidationResult :=
  validateComparison greaterThanOrEquals.
End Comparisons.

(** *** The comparisons as the specification words them

    Operands of one type compare with that type's own comparison, a string
    against a number compares numerically, and [undefined] on either side
    gives an invalid result. *)
Section TypedComparisons.
Variable StringToNumber : string → JsNumber.

Definition typedLessThanOrEquals (x y : ValidationValueType) : bool :=
  match x, y with
  | VUndefined, _ | _, VUndefined => false
  | VString s, VString t => String.leb s t
  | VNumber m, VNumber n => number_leb m n
  | VString s, VNumber n => number_leb (StringToNumber s) n
  | VNumber m, VString t => number_leb m (StringToNumber t)
  end.

Definition typedGreaterThanOrEquals (x y : ValidationValueType) : bool :=
  match x, y with
  | VUndefined, _ | _, VUndefined => false
  | VString s, VString t => String.leb t s
  | VNumber m, VNumber n => number_geb m n
  | VString s, VNumber n => number_geb (StringToNumber s) n
  | VNumber m, VString t => number_geb m (StringToNumber t)
  end.
End TypedComparisons.

(** *** Decimal literals

    The conversion used to replay the test tables.  It reads an optional
    sign, [Infinity] or decimal digits with an optional fraction and an
    optional exponent; the empty string is zero and anything else is [NaN].
    Surrounding white space and the [0x], [0o] and [0b] forms are not
    read. *)
Definition digitValue (c : ascii) : option Z :=
  let n := Z.of_nat (nat_of_ascii c) in
  if ((48 <=? n) && (n <=? 57))%Z then Some (n - 48)%Z else None.

(** A maximal run of digits: the value accumulated onto [acc], the number of
    digits read onto [count], and the rest. *)
Fixpoint readDigits (s : string) (acc count : Z) : Z * Z * string :=
  match s with
  | String c rest =>
      match digitValue c with
      | Some d => readDigits rest (10 * acc + d)%Z (count + 1)%Z
      | None => (acc, count, s)
      end
  | EmptyString => (acc, count, s)
  end.

Definition readSign (s : string) : bool * string :=
  match s with
  | String "-" rest => (true, rest)
  | String "+" rest => (false, rest)
  | _ => (false, s)
  end.

Definition readExponent (s : string) : option (Z * string) :=
  match s with
  | String c rest =>
      if bool_decide (c = "e"%char ∨ c = "E"%char) then
        let '(negative, digits) := readSign rest in
        let '(e, count, rest') := readDigits digits 0 0 in
        if (count =? 0)%Z then None
        else Some (if negative then (- e)%Z else e, rest')
      else Some (0%Z, s)
  | EmptyString => Some (0%Z, s)
  end.

Definition decimalStringToNumber (s : string) : JsNumber :=
  if bool_decide (s = "") then Finite 0 else
  let '(negative, s1) := readSign s in
  if bool_decide (s1 = "Infinity") then (if negative then NegInfinity else PosInfinity) else
  let '(whole, wholeCount, s2) := readDigits s1 0 0 in
  let '(mantissa, fractionCount, s3) :=
    match s2 with
    | String "." rest => readDigits rest whole 0
    | _ => (whole, 0%Z, s2)
    end in
  if (wholeCount + fractionCount =? 0)%Z then NaN else
  match readExponent s3 with
  | Some (e, "") =>
      let m := if negative then (- mantissa)%Z else mantissa in
      Finite (inject_Z m * Qpower (10 # 1) (e - fractionCount))
  | _ => NaN
  end.

(** *** The test tables *)

Record TestObject := {
  value : ValidationValueType;
  targetValue : ValidationValueType;
  expected : bool
}.

Definition str (s : string) : ValidationValueType := VString s.
Definition num (q : Q) : ValidationValueType := VNumber (Finite q).
Definition row (v t : ValidationValueType) (e : bool) : TestObject :=
  {| value := v; targetValue := t; expected := e |}.

Definition lessThanOrEqualsTests : list TestObject :=
  [ row (str "342") (str "42") true;
    row (num 342) (str "42") false;
    row (str "342") (num 42) false;
    row (num 42) (str "342") true;
    row (str "42") (num 342) true;
    row (num 42) (str "42") true;
    row (num 342) (num 42) false;
    row (str "342.15e-1") (str "42.15e-1") true;
    row (num (34215 # 1000)) (str "42.15e-1") false;
    row (str "342.15e-1") (num (4215 # 1000)) false;
    row (num (34215 # 1000)) (num (4215 # 1000)) false;
    row (str "342.15") (str "342.15") true;
    row (num (34215 # 100)) (str "342.15") true;
    row (str "342.15") (num (34215 # 100)) true;
    row (num (34215 # 100)) (num (34215 # 100)) true;
    row VUndefined (str "42") false;
    row VUndefined (num 42) false;
    row (str "42") VUndefined false;
    row (num 42) VUndefined false;
    row VUndefined VUndefined false ].

Definition greaterThanOrEqualsTests : list TestObject :=
  [ row (str "342") (str "42") false;
    row (num 342) (str "42") true;
    row (str "342") (num 42) true;
    row (num 342) (num 42) true;
    row (str "342.15e-1") (str "42.15e-1") false;
    row (num (34215 # 1000)) (str "42.15e-1") true;
    row (str "342.15e-1") (num (4215 # 1000)) true;
    row (num (34215 # 1000)) (num (4215 # 1000)) true;
    row (str "342.15") (str "342.15") true;
    row (num (34215 # 100)) (str "342.15") true;
    row (str "342.15") (num (34215 # 100)) true;
    row (num (34215 # 100)) (num (34215 # 100)) true;
    row VUndefined (str "42") false;
    row VUndefined (num 42) false;
    row (str "42") VUndefined false;
    row (num 42) VUndefined false;
    row VUndefined VUndefined false ].

(** [testValidation]: the result is as expected, with no message when valid
    and the description as message otherwise. *)
Definition testValidation
    (validate : Comparison → ValidationResult) (t : TestObject) : bool :=
  let validationDescription := "did not test as expected" in
  let result :=
    validate {| info := {| description := validationDescription;
                           target := "comparisonTarget" |};
                valueGetter := value t;
                variableToValueGetter := fun _ => targetValue t |} in
  bool_decide (valid result = expected t) &&
  bool_decide (message result =
               if valid result then None else Some validationDescription).

Lemma Qle_bool_negb_Qltb (a b : Q) : Qle_bool a b = negb (Qltb b a).
Proof.
  unfold Qltb. destruct (b ?= a)%Q eqn:Hcmp; simpl.
  - apply Qle_bool_iff. apply Qeq_alt in Hcmp. rewrite Hcmp. apply Qle_refl.
  - apply not_true_is_false. intros Hle. apply Qle_bool_iff in Hle.
    apply Qlt_alt in Hcmp. by apply (Qlt_not_le b a).
  - apply Qle_bool_iff. apply Qgt_alt in Hcmp. by apply Qlt_le_weak.
Qed.

Lemma string_leb_negb_ltb (s t : string) : String.leb s t = negb (String.ltb t s).
Proof.
  unfold String.leb, String.ltb. rewrite (String.compare_antisym s t).
  by destruct (String.compare t s).
Qed.

(** On numbers, [!(y < x)] with the undefined case sent to false is [<=]. *)
Lemma number_lt_leb (x y : JsNumber) :
  match number_lt y x with Some false => true | _ => false end = number_leb x y.
Proof.
  destruct x as [| |a|], y as [| |b|]; simpl; try reflexivity.
  rewrite Qle_bool_negb_Qltb. by destruct (Qltb b a).
Qed.

Lemma lessThanOrEquals_typed StringToNumber x y :
  lessThanOrEquals StringToNumber x y = typedLessThanOrEquals StringToNumber x y.
Proof.
  unfold lessThanOrEquals, lessThan.
  destruct x as [|s|m], y as [|t|n]; cbn [typedLessThanOrEquals];
    first
      [ rewrite string_leb_negb_ltb; by destruct (String.ltb t s)
      | rewrite number_lt_leb; cbn [ToNumber];
        first [ reflexivity
              | by destruct (StringToNumber s)
              | by destruct m ] ].
Qed.

Lemma greaterThanOrEquals_flip StringToNumber x y :
  greaterThanOrEquals StringToNumber x y = lessThanOrEquals StringToNumber y x.
Proof. reflexivity. Qed.

Lemma greaterThanOrEquals_typed StringToNumber x y :
  greaterThanOrEquals StringToNumber x y = typedGreaterThanOrEquals StringToNumber x y.
Proof.
  rewrite greaterThanOrEquals_flip, lessThanOrEquals_typed.
  by destruct x as [|s|m], y as [|t|n].
Qed.

Lemma validateComparison_valid cmp c :
  valid (validateComparison cmp c) =
    cmp (valueGetter c) (variableToValueGetter c (target (info c))).
Proof. unfold validateComparison. by destruct (cmp _ _). Qed.

(** Both test tables pass, reading strings as decimal literals. *)
Example lessThanOrEqualsTests_pass :
  forallb (testValidation (LessThanOrEqualsValidation decimalStringToNumber))
    lessThanOrEqualsTests = true.
Proof. vm_compute. reflexivity. Qed.

Example greaterThanOrEqualsTests_pass :
  forallb (testValidation (GreaterThanOrEqualsValidation decimalStringToNumber))
    greaterThanOrEqualsTests = true.
Proof. vm_compute. reflexivity. Qed.

(** C1. For every pair of operands, [LessThanOrEqualsValidation] and
    [GreaterThanOrEqualsValidation] are valid exactly when the typed
    comparison holds: operands of the same type compare with that type's
    native comparison (strings lexicographically, so ['342' <= '42'] is
    valid), a string against a number compares numerically after the string
    is converted, and an undefined operand on either side always gives an
    invalid result. *)
Theorem comparison_validations_are_typed
    (StringToNumber : string → JsNumber) (c : Comparison) :
  let value := valueGetter c in
  let targetValue := variableToValueGetter c (target (info c)) in
  valid (LessThanOrEqualsValidation StringToNumber c) =
    typedLessThanOrEquals StringToNumber value targetValue ∧
  valid (GreaterThanOrEqualsValidation StringToNumber c) =
    typedGreaterThanOrEquals StringToNumber value targetValue ∧
  lessThanOrEquals StringToNumber (VString "342") (VString "42") = true ∧
  greaterThanOrEquals StringToNumber (VString "342") (VString "42") = false.
Proof.
  intros value targetValue. split_and!.
  - unfold LessThanOrEqualsValidation.
    by rewrite validateComparison_valid, lessThanOrEquals_typed.
  - unfold GreaterThanOrEqualsValidation.
    by rewrite validateComparison_valid, greaterThanOrEquals_typed.
  - reflexivity.
  - reflexivity.
Qed.

End Validations.

(** ** The new project dialog ([dialogs/newProjectDialog.ts]) *)
Module NewProjectDialog.

(** What a [throw] threw: a value with a [message] property, such as an
    [Error], or a value without one. *)
Inductive Thrown :=
| WithMessage (message : string)
| WithoutMessage (value : string).

(** What [showErrorMessage] is given. *)
Inductive ErrorMessage :=
| ProjectParentDirectoryNotExistError (location : string)
| ProjectDirectoryAlreadyExistError (projectName location : string)
| MessageText (message : string)
| ThrownValue (err : Thrown).

Record NewProjectDialogModel := {
  projectTypeId : string;
  projectFileExtension : string;
  name : string;
  location : string
}.

(** The dialog: its model and the error messages shown so far, oldest
    first. *)
Record NewProjectDialog := {
  model : NewProjectDialogModel;
  shownErrors : list ErrorMessage
}.

(** [DialogBase.showErrorMessage] *)
Definition showErrorMessage (m : ErrorMessage) : Promise.Task NewProjectDialog Thrown () :=
  Promise.modify (fun d => {| model := model d; shownErrors := shownErrors d ++ [m] |}).

(** [err?.message ? err.message : err]: an empty message is falsy. *)
Definition messageOrError (err : Thrown) : ErrorMessage :=
  match err with
  | WithMessage m => if bool_decide (m = "") then ThrownValue err else MessageText m
  | WithoutMessage _ => ThrownValue err
  end.

Section Validate.
(** [directoryExist] of [common/utils] and [path.join]. *)
Context (directoryExist : string → Promise.Outcome Thrown bool)
        (join : string → string → string).

Definition validate : Promise.Task NewProjectDialog Thrown bool :=
  Promise.tryCatch
    (location ← Promise.gets (fun d => location (model d));
     parentDirectoryExists ← Promise.await (directoryExist location);
     if negb parentDirectoryExists then
       _ ← showErrorMessage (ProjectParentDirectoryNotExistError location);
       mret false
     else
       name ← Promise.gets (fun d => name (model d));
       projectDirectoryExists ← Promise.await (directoryExist (join location name));
       if projectDirectoryExists : bool then
         _ ← showErrorMessage (ProjectDirectoryAlreadyExistError name location);
         mret false
       else mret true)
    (fun err : Thrown =>
       _ ← showErrorMessage (messageOrError err);
       mret false).
End Validate.

(** A file system with the directories [/home] and [/home/existing]. *)
Definition sampleDirectoryExist (path : string) : Promise.Outcome Thrown bool :=
  if bool_decide (path = "/unreadable") then Promise.Rejected (WithMessage "EACCES")
  else Promise.Resolved (bool_decide (path = "/home" ∨ path = "/home/existing")).

Definition sampleJoin (a b : string) : string := a +:+ "/" +:+ b.

Definition sampleDialog (projectName projectLocation : string) : NewProjectDialog :=
  {| model := {| projectTypeId := "sqlproj"; projectFileExtension := "sqlproj";
                 name := projectName; location := projectLocation |};
     shownErrors := [] |}.

Example validate_new_project :
  validate sampleDirectoryExist sampleJoin (sampleDialog "fresh" "/home") =
    (Promise.Resolved true, sampleDialog "fresh" "/home").
Proof. vm_compute. reflexivity. Qed.

Example validate_missing_parent :
  (validate sampleDirectoryExist sampleJoin (sampleDialog "fresh" "/nowhere")).1 =
    Promise.Resolved false.
Proof. vm_compute. reflexivity. Qed.

Example validate_existing_project :
  let r := validate sampleDirectoryExist sampleJoin (sampleDialog "existing" "/home") in
  r.1 = Promise.Resolved false ∧
  shownErrors r.2 = [ProjectDirectoryAlreadyExistError "existing" "/home"].
Proof. vm_compute. done. Qed.

Example validate_throwing_check :
  let r := validate sampleDirectoryExist sampleJoin (sampleDialog "fresh" "/unreadable") in
  r.1 = Promise.Resolved false ∧ shownErrors r.2 = [MessageText "EACCES"].
Proof. vm_compute. done. Qed.

(** C8. [validate] never rejects.  It resolves to true exactly when the
    chosen location is an existing directory and no directory named after
    the project exists inside it, and then shows nothing; in every other
    case, a throwing file-system check included, it shows one error message
    and resolves to false. *)
Theorem validate_resolves
    (directoryExist : string → Promise.Outcome Thrown bool)
    (join : string → string → string) (d : NewProjectDialog) :
  ∃ (b : bool) (d' : NewProjectDialog),
    validate directoryExist join d = (Promise.Resolved b, d') ∧
    model d' = model d ∧
    (b = true ↔
       directoryExist (location (model d)) = Promise.Resolved true ∧
       directoryExist (join (location (model d)) (name (model d))) = Promise.Resolved false) ∧
    (b = true → shownErrors d' = shownErrors d) ∧
    (b = false → ∃ m, shownErrors d' = shownErrors d ++ [m]).
Proof.
  unfold validate, Promise.tryCatch, mbind, task_bind, Promise.bind, Promise.gets,
    Promise.await, showErrorMessage, Promise.modify, mret, task_ret, Promise.ret.
  destruct (directoryExist (location (model d))) as [[|]|e1] eqn:Hparent; cbn.
  - destruct (directoryExist (join (location (model d)) (name (model d))))
      as [[|]|e2] eqn:Hproject; cbn.
    + eexists false, _. split_and!; [reflexivity|reflexivity| |done|by eexists].
      split; [done|]. by intros [_ [=]].
    + eexists true, _. split_and!; [reflexivity|reflexivity|done|done|done].
    + eexists false, _. split_and!; [reflexivity|reflexivity| |done|by eexists].
      split; [done|]. by intros [_ [=]].
  - eexists false, _. split_and!; [reflexivity|reflexivity| |done|by eexists].
    split; [done|]. by intros [[=] _].
  - eexists false, _. split_and!; [reflexivity|reflexivity| |done|by eexists].
    split; [done|]. by intros [[=] _].
Qed.

Lemma validate_resolves_witness :
  ∃ d', validate sampleDirectoryExist sampleJoin (sampleDialog "fresh" "/home") =
          (Promise.Resolved true, d') ∧
        shownErrors d' = [].
Proof.
  destruct (validate_resolves sampleDirectoryExist sampleJoin (sampleDialog "fresh" "/home"))
    as (b & d' & Hrun & _ & Hiff & Hshown & _).
  assert (Hb : b = true) by (apply Hiff; vm_compute; done).
  subst b. exists d'. split; [exact Hrun|]. by rewrite Hshown.
Defined.

(** *** Completing the dialog *)

(** What [onComplete] acts on: the workspace service's projects and the
    error messages of [vscode.window]. *)
Record Workbench := {
  createdProjects : list (string * string * string);
  windowErrors : list ErrorMessage
}.

Section OnComplete.
(** [workspaceService.validateWorkspace()], and whether
    [workspaceService.createProject(...)] goes through. *)
Context (validateWorkspace : Promise.Outcome Thrown bool)
        (createProject : string → string → string → Promise.Outcome Thrown ()).

Definition workspaceCreateProject (name location projectTypeId : string)
  : Promise.Task Workbench Thrown () :=
  fun w =>
    match createProject name location projectTypeId with
    | Promise.Resolved _ =>
        (Promise.Resolved (),
         {| createdProjects := createdProjects w ++ [(name, location, projectTypeId)];
            windowErrors := windowErrors w |})
    | Promise.Rejected e => (Promise.Rejected e, w)
    end.

Definition windowShowErrorMessage (m : ErrorMessage) : Promise.Task Workbench Thrown () :=
  Promise.modify (fun w =>
    {| createdProjects := createdProjects w; windowErrors := windowErrors w ++ [m] |}).

Definition onComplete (this : NewProjectDialogModel) : Promise.Task Workbench Thrown () :=
  Promise.tryCatch
    (valid ← Promise.await validateWorkspace;
     if valid : bool then
       workspaceCreateProject (name this) (location this) (projectTypeId this)
     else mret ())
    (fun err : Thrown => windowShowErrorMessage (messageOrError err)).
End OnComplete.

(** X10. [onComplete] never rejects.  It creates exactly one project, with
    the model's name, location and type, when [validateWorkspace] resolves
    to true and the creation goes through, and then shows nothing; it
    creates nothing otherwise, and shows one error message exactly when
    [validateWorkspace] or the creation throws. *)
Theorem onComplete_creates_after_validation
    (validateWorkspace : Promise.Outcome Thrown bool)
    (createProject : string → string → string → Promise.Outcome Thrown ())
    (this : NewProjectDialogModel) (w : Workbench) :
  let creation := createProject (name this) (location this) (projectTypeId this) in
  ∃ w', onComplete validateWorkspace createProject this w = (Promise.Resolved (), w') ∧
    createdProjects w' =
      createdProjects w ++
        match validateWorkspace, creation with
        | Promise.Resolved true, Promise.Resolved _ =>
            [(name this, location this, projectTypeId this)]
        | _, _ => []
        end ∧
    windowErrors w' =
      windowErrors w ++
        match validateWorkspace with
        | Promise.Rejected err => [messageOrError err]
        | Promise.Resolved false => []
        | Promise.Resolved true =>
            match creation with
            | Promise.Rejected err => [messageOrError err]
            | Promise.Resolved _ => []
            end
        end.
Proof.
  intros creation. subst creation.
  unfold onComplete, workspaceCreateProject, windowShowErrorMessage, Promise.tryCatch,
    mbind, task_bind, Promise.bind, Promise.await, Promise.modify, mret, task_ret,
    Promise.ret.
  destruct validateWorkspace as [[|]|err]; simpl.
  - destruct (createProject _ _ _) as [[]|err]; simpl; eexists; split_and!;
      try reflexivity; simpl; by rewrite ?(right_id_L [] (++)).
  - eexists; split_and!; try reflexivity; simpl; by rewrite ?(right_id_L [] (++)).
  - eexists; split_and!; try reflexivity; simpl; by rewrite ?(right_id_L [] (++)).
Qed.

End NewProjectDialog.

(** ** The auto-sync service proxy ([UserDataAutoSyncService]) *)
Module UserDataAutoSync.

(** One element of the argument array handed to [channel.call]. *)
Inductive Arg :=
| ArgStrings (sources : list string)
| ArgBoolean (b : bool).

(** [IChannel.call(command, arg?)], with results in [R]. *)
Class IChannel (Ch R : Type) := call : Ch → string → option (list Arg) → R.

(** [ISharedProcessService.getChannel(channelName)] *)
Class ISharedProcessService (S Ch : Type) := getChannel : S → string → Ch.

(** The service: what it inherits from [UserDataAutoSyncEnablementService],
    and its channel. *)
Record UserDataAutoSyncService (Ch : Type) := {
  enablement : bool;
  channel : Ch
}.
Arguments enablement {Ch} _.
Arguments channel {Ch} _.

Section Service.
Context {S Ch R : Type} `{!ISharedProcessService S Ch} `{!IChannel Ch R}.

Definition constructor (storedEnablement : bool) (sharedProcessService : S)
  : UserDataAutoSyncService Ch :=
  {| enablement := storedEnablement;
     channel := getChannel sharedProcessService "userDataAutoSync" |}.

(** Each method gives what it returns and the service it leaves. *)
Definition triggerSync (this : UserDataAutoSyncService Ch)
    (sources : list string) (hasToLimitSync disableCache : bool)
  : R * UserDataAutoSyncService Ch :=
  (call (channel this) "triggerSync"
     (Some [ArgStrings sources; ArgBoolean hasToLimitSync; ArgBoolean disableCache]),
   this).

Definition turnOn (this : UserDataAutoSyncService Ch) : R * UserDataAutoSyncService Ch :=
  (call (channel this) "turnOn" None, this).

Definition turnOff (this : UserDataAutoSyncService Ch) (everywhere : bool)
  : R * UserDataAutoSyncService Ch :=
  (call (channel this) "turnOff" (Some [ArgBoolean everywhere]), this).
End Service.

(** A shared process whose channels are their names, and whose calls return
    the request as it went over the wire. *)
Record Request := {
  requestChannel : string;
  requestCommand : string;
  requestArg : option (list Arg)
}.

Inductive SharedProcess := sharedProcess.

#[export] Instance namedChannels : ISharedProcessService SharedProcess string :=
  fun _ channelName => channelName.

#[export] Instance echoChannel : IChannel string Request :=
  fun channelName command arg =>
    {| requestChannel := channelName; requestCommand := command; requestArg := arg |}.

Example triggerSync_request :
  (triggerSync (constructor true sharedProcess) ["settings"; "keybindings"] true false).1 =
    {| requestChannel := "userDataAutoSync";
       requestCommand := "triggerSync";
       requestArg := Some [ArgStrings ["settings"; "keybindings"];
                           ArgBoolean true; ArgBoolean false] |}.
Proof. reflexivity. Qed.

Example turnOn_request :
  (turnOn (constructor true sharedProcess)).1 =
    {| requestChannel := "userDataAutoSync"; requestCommand := "turnOn";
       requestArg := None |}.
Proof. reflexivity. Qed.

(** C6. [UserDataAutoSyncService] only forwards: for all arguments,
    [triggerSync], [turnOn] and [turnOff] return exactly what [channel.call]
    returns on the channel named [userDataAutoSync] for the same command and
    arguments, and leave the service as it was. *)
Theorem service_forwards_to_channel
    {S Ch R : Type} `{!ISharedProcessService S Ch} `{!IChannel Ch R}
    (storedEnablement : bool) (sharedProcessService : S)
    (sources : list string) (hasToLimitSync disableCache everywhere : bool) :
  let this := constructor storedEnablement sharedProcessService in
  let userDataAutoSync := getChannel sharedProcessService "userDataAutoSync" in
  triggerSync this sources hasToLimitSync disableCache =
    (call userDataAutoSync "triggerSync"
       (Some [ArgStrings sources; ArgBoolean hasToLimitSync; ArgBoolean disableCache]),
     this) ∧
  turnOn this = (call userDataAutoSync "turnOn" None, this) ∧
  turnOff this everywhere =
    (call userDataAutoSync "turnOff" (Some [ArgBoolean everywhere]), this).
Proof. intros this userDataAutoSync. split_and!; reflexivity. Qed.

End UserDataAutoSync.

(** ** Azure resource commands ([azureResource/commands.ts])

    The part of [azure.resource.selectsubscriptions] that builds the quick
    pick list from the fetched subscriptions and the saved selection. *)
Module AzureResourceCommands.

Record AzureResourceSubscription := {
  id : string;
  name : string;
  tenant : string
}.

(** [AzureResourceSubscriptionQuickPickItem] *)
Record QuickPickItem := {
  label : string;
  picked : bool;
  subscription : AzureResourceSubscription
}.

Section Sort.
Context {A : Type} (compareFn : A → A → Z).

(** [x] goes in front of the first element it does not compare greater
    than, so that equal elements keep their order. *)
Fixpoint insertSorted (x : A) (l : list A) : list A :=
  match l with
  | [] => [x]
  | y :: rest =>
      if (compareFn x y <=? 0)%Z then x :: y :: rest else y :: insertSorted x rest
  end.

(** [Array.prototype.sort(compareFn)], as a stable insertion sort. *)
Definition sort (l : list A) : list A := foldr insertSorted [] l.
End Sort.

Section SelectSubscriptions.
(** [String.prototype.localeCompare], which depends on the host's locale. *)
Variable localeCompare : string → string → Z.

Definition selectedSubscriptionIds
    (subscriptions : list AzureResourceSubscription)
    (saved : option (list AzureResourceSubscription)) : list string :=
  let selectedSubscriptions := default [] saved in
  if (0 <? length selectedSubscriptions)%nat
  then id <$> selectedSubscriptions
  else id <$> subscriptions.

Definition quickPickItem (ids : list string) (s : AzureResourceSubscription)
  : QuickPickItem :=
  {| label := name s;
     picked := negb (JsArray.indexOf ids (id s) =? -1)%Z;
     subscription := s |}.

Definition subscriptionQuickPickItems
    (subscriptions : list AzureResourceSubscription)
    (saved : option (list AzureResourceSubscription)) : list QuickPickItem :=
  let ids := selectedSubscriptionIds subscriptions saved in
  sort (fun a b => localeCompare (label a) (label b))
    (quickPickItem ids <$> subscriptions).
End SelectSubscriptions.

Definition compareStrings (a b : string) : Z :=
  match String.compare a b with Lt => (-1)%Z | Eq => 0%Z | Gt => 1%Z end.

Definition sub (i n : string) : AzureResourceSubscription :=
  {| id := i; name := n; tenant := "tenant" |}.

Example quickPick_saved_selection :
  (fun item => (label item, picked item)) <$>
    subscriptionQuickPickItems compareStrings
      [sub "3" "prod"; sub "1" "dev"; sub "2" "test"] (Some [sub "2" "test"; sub "9" "gone"])
  = [("dev", false); ("prod", false); ("test", true)].
Proof. vm_compute. reflexivity. Qed.

Example quickPick_nothing_saved :
  (fun item => (label item, picked item)) <$>
    subscriptionQuickPickItems compareStrings
      [sub "3" "prod"; sub "1" "dev"; sub "2" "test"] None
  = [("dev", true); ("prod", true); ("test", true)].
Proof. vm_compute. reflexivity. Qed.

Lemma insertSorted_Permutation {A} (compareFn : A → A → Z) x l :
  insertSorted compareFn x l ≡ₚ x :: l.
Proof.
  induction l as [|y rest IH]; simpl; [done|].
  destruct (compareFn x y <=? 0)%Z; [done|].
  by rewrite IH, Permutation_swap.
Qed.

Lemma sort_Permutation {A} (compareFn : A → A → Z) l : sort compareFn l ≡ₚ l.
Proof.
  induction l as [|x l IH]; simpl; [done|].
  by rewrite insertSorted_Permutation, IH.
Qed.

Lemma picked_quickPickItem ids s :
  picked (quickPickItem ids s) = true ↔ id s ∈ ids.
Proof.
  unfold quickPickItem; simpl. rewrite negb_true_iff, Z.eqb_neq.
  apply JsArray.indexOf_found.
Qed.

Lemma elem_of_subscriptionQuickPickItems localeCompare subscriptions saved item :
  item ∈ subscriptionQuickPickItems localeCompare subscriptions saved ↔
  ∃ s, s ∈ subscriptions ∧
       item = quickPickItem (selectedSubscriptionIds subscriptions saved) s.
Proof.
  unfold subscriptionQuickPickItems. rewrite sort_Permutation, list_elem_of_fmap.
  naive_solver.
Qed.

Lemma selectedSubscriptionIds_none subscriptions saved :
  default [] saved = [] →
  selectedSubscriptionIds subscriptions saved = id <$> subscriptions.
Proof. unfold selectedSubscriptionIds. by intros ->. Qed.

Lemma selectedSubscriptionIds_some subscriptions saved :
  default [] saved ≠ [] →
  selectedSubscriptionIds subscriptions saved = id <$> default [] saved.
Proof.
  unfold selectedSubscriptionIds. intros Hsaved.
  by destruct (default [] saved).
Qed.

(** C7. The quick pick list holds one item for each fetched subscription.
    When the filter service reports no previously selected subscriptions
    (none saved, or an empty selection) every item is picked; otherwise an
    item is picked exactly when its subscription's id is the id of a
    previously selected subscription. *)
Theorem selectsubscriptions_picks
    (localeCompare : string → string → Z)
    (subscriptions : list AzureResourceSubscription)
    (saved : option (list AzureResourceSubscription)) :
  let items := subscriptionQuickPickItems localeCompare subscriptions saved in
  subscription <$> items ≡ₚ subscriptions ∧
  (default [] saved = [] → Forall (fun item => picked item = true) items) ∧
  (default [] saved ≠ [] →
     ∀ item, item ∈ items →
       (picked item = true ↔ id (subscription item) ∈ id <$> default [] saved)).
Proof.
  intros items. subst items. split_and!.
  - unfold subscriptionQuickPickItems. rewrite sort_Permutation.
    rewrite <- list_fmap_compose. by rewrite list_fmap_id.
  - intros Hnone. apply Forall_forall. intros item Hitem.
    apply elem_of_subscriptionQuickPickItems in Hitem as (s & Hs & ->).
    apply picked_quickPickItem. rewrite selectedSubscriptionIds_none by done.
    by apply list_elem_of_fmap_2.
  - intros Hsome item Hitem.
    apply elem_of_subscriptionQuickPickItems in Hitem as (s & Hs & ->).
    rewrite picked_quickPickItem. by rewrite selectedSubscriptionIds_some.
Qed.

Lemma selectsubscriptions_picks_witness :
  Forall (fun item => picked item = true)
    (subscriptionQuickPickItems compareStrings
       [sub "3" "prod"; sub "1" "dev"; sub "2" "test"] (Some [])) ∧
  (picked (quickPickItem ["2"; "9"] (sub "2" "test")) = true ↔
   "2" ∈ id <$> [sub "2" "test"; sub "9" "gone"]).
Proof.
  pose proof (selectsubscriptions_picks compareStrings
                [sub "3" "prod"; sub "1" "dev"; sub "2" "test"] (Some [])) as Hnone.
  pose proof (selectsubscriptions_picks compareStrings
                [sub "3" "prod"; sub "1" "dev"; sub "2" "test"]
                (Some [sub "2" "test"; sub "9" "gone"])) as Hsome.
  cbv zeta in Hnone, Hsome.
  destruct Hnone as (_ & Hall & _). destruct Hsome as (_ & _ & Hexact).
  split.
  - apply Hall. reflexivity.
  - apply (Hexact ltac:(discriminate) (quickPickItem ["2"; "9"] (sub "2" "test"))).
    vm_compute. do 2 right. left.
Defined.

(** *** Starting a cloud terminal ([azure.resource.startterminal]) *)




























(** *** The order of the quick pick list *)

Section Sorted.
Context {A K : Type} (key : A → K) (compareFn : K → K → Z).

(** A consistent comparison function, as [Array.prototype.sort] asks for
    one: [a =CF a]; [a =CF b] gives [b =CF a]; and each of [=CF], [<CF] and
    [>CF] is transitive.  With another function the order that [sort] leaves
    is up to the implementation. *)
Definition consistentComparator : Prop :=
  (∀ a, compareFn a a = 0%Z) ∧
  (∀ a b, compareFn a b = 0%Z → compareFn b a = 0%Z) ∧
  (∀ a b c, compareFn a b = 0%Z → compareFn b c = 0%Z → compareFn a c = 0%Z) ∧
  (∀ a b c, (compareFn a b < 0)%Z → (compareFn b c < 0)%Z → (compareFn a c < 0)%Z) ∧
  (∀ a b c, (compareFn a b > 0)%Z → (compareFn b c > 0)%Z → (compareFn a c > 0)%Z).

(** The comparator handed to [sort]: the elements' keys compared. *)
Definition byKey (a b : A) : Z := compareFn (key a) (key b).

(** Each element compares at or below every later one. *)
Fixpoint sortedBy (l : list A) : Prop :=
  match l with
  | [] => True
  | x :: rest => Forall (fun y => (byKey x y <= 0)%Z) rest ∧ sortedBy rest
  end.

(** The elements whose key compares equal to [c], in the order of [l]. *)
Definition equalTo (c : K) (l : list A) : list A :=
  filter (fun y => compareFn c (key y) = 0%Z) l.

Lemma consistent_flip a b :
  consistentComparator → (compareFn a b > 0)%Z → (compareFn b a < 0)%Z.
Proof.
  intros (Hrefl & Hsym & _ & _ & Hgt) Hab.
  destruct (Z.lt_trichotomy (compareFn b a) 0) as [Hba|[Hba|Hba]]; [done| |].
  - apply Hsym in Hba. lia.
  - pose proof (Hgt a b a Hab ltac:(lia)) as Haa. rewrite Hrefl in Haa. lia.
Qed.

Lemma consistent_flip_lt a b :
  consistentComparator → (compareFn a b < 0)%Z → (compareFn b a > 0)%Z.
Proof.
  intros (Hrefl & Hsym & _ & Hlt & _) Hab.
  destruct (Z.lt_trichotomy (compareFn b a) 0) as [Hba|[Hba|Hba]]; [| |lia].
  - pose proof (Hlt a b a Hab Hba) as Haa. rewrite Hrefl in Haa. lia.
  - apply Hsym in Hba. lia.
Qed.

Lemma consistent_le_trans a b c :
  consistentComparator →
  (compareFn a b <= 0)%Z → (compareFn b c <= 0)%Z → (compareFn a c <= 0)%Z.
Proof.
  intros Hconsistent Hab Hbc.
  pose proof Hconsistent as (Hrefl & Hsym & Heq & Hlt & Hgt).
  destruct (Z.le_gt_cases (compareFn a c) 0) as [|Hac]; [done|].
  destruct (Z.eq_dec (compareFn a b) 0%Z) as [Hab0|Hab0],
           (Z.eq_dec (compareFn b c) 0%Z) as [Hbc0|Hbc0].
  - rewrite (Heq a b c) in Hac by done. lia.
  - pose proof (consistent_flip_lt b c Hconsistent ltac:(lia)) as Hcb.
    pose proof (Hgt a c b ltac:(lia) Hcb). lia.
  - pose proof (consistent_flip_lt a b Hconsistent ltac:(lia)) as Hba.
    pose proof (Hgt b a c Hba ltac:(lia)). lia.
  - pose proof (Hlt a b c ltac:(lia) ltac:(lia)). lia.
Qed.

Lemma insertSorted_elem_of x y l :
  y ∈ insertSorted byKey x l ↔ y = x ∨ y ∈ l.
Proof. by rewrite insertSorted_Permutation, elem_of_cons. Qed.

Lemma insertSorted_sorted x l :
  consistentComparator → sortedBy l → sortedBy (insertSorted byKey x l).
Proof.
  intros Hconsistent. induction l as [|y l IH]; intros Hsorted; simpl.
  - by split.
  - destruct Hsorted as [Hall Hsorted].
    destruct (byKey x y <=? 0)%Z eqn:Hxy.
    + apply Z.leb_le in Hxy. split; [|by split].
      constructor; [done|]. eapply Forall_impl; [exact Hall|].
      intros z Hyz. by eapply consistent_le_trans.
    + apply Z.leb_gt in Hxy. split; [|by apply IH].
      apply Forall_forall. intros z [->|Hz]%insertSorted_elem_of.
      * pose proof (consistent_flip (key x) (key y) Hconsistent) as Hflip.
        unfold byKey in *. lia.
      * rewrite Forall_forall in Hall. by apply Hall.
Qed.

Lemma sort_sorted l : consistentComparator → sortedBy (sort byKey l).
Proof.
  intros Hconsistent. induction l as [|x l IH]; simpl; [done|].
  by apply insertSorted_sorted.
Qed.

Lemma sortedBy_lookup l : sortedBy l →
  ∀ i j a b, i < j → l !! i = Some a → l !! j = Some b → (byKey a b <= 0)%Z.
Proof.
  induction l as [|x l IH]; intros Hsorted i j a b Hij Hi Hj; [done|].
  destruct Hsorted as [Hall Hsorted]. destruct j as [|j]; [lia|]. simpl in Hj.
  destruct i as [|i]; simpl in Hi.
  - injection Hi as <-. rewrite Forall_forall in Hall.
    by eapply Hall, list_elem_of_lookup_2.
  - apply (IH Hsorted i j); [lia|done|done].
Qed.

Lemma lookup_sortedBy l :
  (∀ i j a b, i < j → l !! i = Some a → l !! j = Some b → (byKey a b <= 0)%Z) →
  sortedBy l.
Proof.
  induction l as [|x l IH]; intros Hordered; [done|]. split.
  - apply Forall_forall. intros y Hy. apply list_elem_of_lookup in Hy as [j Hj].
    apply (Hordered 0 (S j)); [lia|done|done].
  - apply IH. intros i j a b Hij Hi Hj. apply (Hordered (S i) (S j)); [lia|done|done].
Qed.

Lemma equalTo_cons c x l :
  equalTo c (x :: l) =
    if decide (compareFn c (key x) = 0%Z) then x :: equalTo c l else equalTo c l.
Proof. unfold equalTo. rewrite filter_cons. by case_decide. Qed.

(** [insertSorted] never moves an element past one that compares equal. *)
Lemma insertSorted_stable c x l :
  consistentComparator → equalTo c (insertSorted byKey x l) = equalTo c (x :: l).
Proof.
  intros Hconsistent. pose proof Hconsistent as (Hrefl & Hsym & Heq & _).
  induction l as [|y l IH]; simpl; [done|].
  destruct (byKey x y <=? 0)%Z eqn:Hxy; [done|]. apply Z.leb_gt in Hxy.
  rewrite (equalTo_cons c y), IH, !equalTo_cons.
  repeat case_decide; try done.
  assert (byKey x y = 0%Z); [|lia].
  apply (Heq _ c); [by apply Hsym|done].
Qed.

Lemma sort_stable c l : consistentComparator → equalTo c (sort byKey l) = equalTo c l.
Proof.
  intros Hconsistent. induction l as [|x l IH]; simpl; [done|].
  rewrite insertSorted_stable by done. by rewrite !equalTo_cons, IH.
Qed.

(** A list in order is determined by the order in which it holds the
    elements of each class of equal keys. *)
Lemma sorted_stable_unique : consistentComparator → ∀ l1 l2,
  sortedBy l1 → sortedBy l2 → (∀ c, equalTo c l1 = equalTo c l2) → l1 = l2.
Proof.
  intros Hconsistent. pose proof Hconsistent as (Hrefl & Hsym & Heq & Hlt & _).
  induction l1 as [|a r1 IH]; intros [|b r2] Hsorted1 Hsorted2 Hclasses.
  - done.
  - specialize (Hclasses (key b)). rewrite equalTo_cons in Hclasses.
    rewrite decide_True in Hclasses by apply Hrefl. discriminate Hclasses.
  - specialize (Hclasses (key a)). rewrite equalTo_cons in Hclasses.
    rewrite decide_True in Hclasses by apply Hrefl. discriminate Hclasses.
  - destruct Hsorted1 as [Hall1 Hsorted1], Hsorted2 as [Hall2 Hsorted2].
    rewrite Forall_forall in Hall1, Hall2.
    assert (Hsame : compareFn (key a) (key b) = 0%Z).
    { destruct (Z.eq_dec (compareFn (key a) (key b)) 0%Z) as [|Hab]; [done|].
      assert (Hba : compareFn (key b) (key a) ≠ 0%Z) by (intros ?%Hsym; done).
      pose proof (Hclasses (key a)) as Ha. pose proof (Hclasses (key b)) as Hb.
      rewrite !equalTo_cons in Ha, Hb.
      rewrite decide_True, decide_False in Ha by (done || apply Hrefl).
      rewrite decide_False, decide_True in Hb by (done || apply Hrefl).
      assert (Ha2 : a ∈ r2).
      { apply (list_elem_of_filter (fun y => compareFn (key a) (key y) = 0%Z)).
        unfold equalTo in Ha. rewrite <- Ha. left. }
      assert (Hb1 : b ∈ r1).
      { apply (list_elem_of_filter (fun y => compareFn (key b) (key y) = 0%Z)).
        unfold equalTo in Hb. rewrite Hb. left. }
      apply Hall2 in Ha2. apply Hall1 in Hb1. unfold byKey in Ha2, Hb1.
      pose proof (Hlt (key a) (key b) (key a) ltac:(lia) ltac:(lia)) as Haa.
      rewrite Hrefl in Haa. lia. }
    assert (a = b) as <-.
    { specialize (Hclasses (key a)). rewrite !equalTo_cons in Hclasses.
      rewrite !decide_True in Hclasses by (done || apply Hrefl).
      by injection Hclasses. }
    f_equal. apply IH; [done|done|]. intros c. specialize (Hclasses c).
    rewrite !equalTo_cons in Hclasses. case_decide; [by injection Hclasses|done].
Qed.
End Sorted.

(** X14. When [localeCompare] is a consistent comparison function on
    labels, the quick pick list of [azure.resource.selectsubscriptions] is
    the items made from the fetched subscriptions, each as often as made,
    put in the order of their labels: the label of each item compares at or
    below the label of every item after it, and items whose labels compare
    equal stay in the order of the fetched subscriptions.  No other
    arrangement is both in order and stable, so that the list is the same
    whichever way [sort] gets there. *)
Theorem quickPick_sorted_by_label
    (localeCompare : string → string → Z)
    (subscriptions : list AzureResourceSubscription)
    (saved : option (list AzureResourceSubscription)) :
  consistentComparator localeCompare →
  let unsorted :=
    quickPickItem (selectedSubscriptionIds subscriptions saved) <$> subscriptions in
  let items := subscriptionQuickPickItems localeCompare subscriptions saved in
  let ordered (l : list QuickPickItem) :=
    ∀ i j a b, i < j → l !! i = Some a → l !! j = Some b →
      (localeCompare (label a) (label b) <= 0)%Z in
  let stable (l : list QuickPickItem) :=
    ∀ c, filter (fun item => localeCompare c (label item) = 0%Z) l =
         filter (fun item => localeCompare c (label item) = 0%Z) unsorted in
  items ≡ₚ unsorted ∧
  ordered items ∧
  stable items ∧
  (∀ other, ordered other → stable other → other = items).
Proof.
  intros Hconsistent unsorted items ordered stable.
  assert (Hsorted : sortedBy label localeCompare items)
    by (by apply (sort_sorted label localeCompare)).
  assert (Hstable : stable items)
    by (intros c; by apply (sort_stable label localeCompare)).
  split_and!.
  - apply sort_Permutation.
  - exact (sortedBy_lookup label localeCompare items Hsorted).
  - done.
  - intros other Hordered Hother.
    apply (sorted_stable_unique label localeCompare); [done| |done|].
    + by apply lookup_sortedBy.
    + intros c. unfold equalTo. by rewrite Hother, Hstable.
Qed.

Definition compareLengths (a b : string) : Z :=
  (Z.of_nat (String.length a) - Z.of_nat (String.length b))%Z.

Lemma quickPick_sorted_by_label_witness :
  label <$> subscriptionQuickPickItems compareLengths
              [sub "3" "production"; sub "1" "dev"; sub "2" "test"; sub "4" "uat"] None
    = ["dev"; "uat"; "test"; "production"] ∧
  subscriptionQuickPickItems compareLengths
    [sub "3" "production"; sub "1" "dev"; sub "2" "test"; sub "4" "uat"] None
  ≡ₚ quickPickItem ["3"; "1"; "2"; "4"] <$>
       [sub "3" "production"; sub "1" "dev"; sub "2" "test"; sub "4" "uat"].
Proof.
  split; [reflexivity|].
  apply (quickPick_sorted_by_label compareLengths).
  unfold consistentComparator, compareLengths. split_and!; intros; lia.
Defined.

(** *** The whole of [azure.resource.selectsubscriptions] *)

Inductive CommandError :=
| AzureResourceCredentialError (cause : string)
| OtherError (cause : string).

(** What the command does that can be seen from outside, in order. *)
Inductive Effect :=
| MarkStale
| QuickPickShown (items : list QuickPickItem)
| TreeRefreshed (tree : nat)
| SelectionSaved (selected : list AzureResourceSubscription).

(** What the command is run with: whether the node is an account node, the
    tenants of its account if it has one, what fetching the subscriptions
    of a tenant gives (token and query together), the filter service, the
    user's answer to the quick pick, and the trees. *)
Record SelectRequest := {
  nodeIsAccountNode : bool;
  accountTenants : option (list string);
  fetchSubscriptions : string → Promise.Outcome string (list AzureResourceSubscription);
  getSelectedSubscriptions :
    Promise.Outcome string (option (list AzureResourceSubscription));
  showQuickPick : list QuickPickItem → option (list QuickPickItem);
  trees : nat;
  refreshTree : nat → Promise.Outcome string ();
  saveSelectedSubscriptions : list AzureResourceSubscription → Promise.Outcome string ()
}.

Definition effect (e : Effect) : Promise.Task (list Effect) CommandError () :=
  Promise.modify (fun log => log ++ [e]).

(** [await p], a rejection being thrown on as it is. *)
Definition awaitOther {A} (p : Promise.Outcome string A)
  : Promise.Task (list Effect) CommandError A :=
  match p with
  | Promise.Resolved a => mret a
  | Promise.Rejected e => Promise.throw (OtherError e)
  end.

(** The loop over the tenants, pushing onto [subscriptions]. *)
Fixpoint fetchAll (r : SelectRequest) (tenantIds : list string)
    (subscriptions : list AzureResourceSubscription)
  : Promise.Outcome string (list AzureResourceSubscription) :=
  match tenantIds with
  | [] => Promise.Resolved subscriptions
  | tenantId :: rest =>
      match fetchSubscriptions r tenantId with
      | Promise.Resolved fetched => fetchAll r rest (subscriptions ++ fetched)
      | Promise.Rejected e => Promise.Rejected e
      end
  end.

(** [for (const tree of trees) await tree.refresh(undefined, false)], from
    tree [next] on. *)
Fixpoint refreshTrees (r : SelectRequest) (remaining next : nat)
  : Promise.Task (list Effect) CommandError () :=
  match remaining with
  | 0 => mret ()
  | S remaining' =>
      _ ← effect (TreeRefreshed next);
      _ ← awaitOther (refreshTree r next);
      refreshTrees r remaining' (S next)
  end.

Section SelectCommand.
Variable localeCompare : string → string → Z.

Definition selectSubscriptions (r : SelectRequest)
  : Promise.Task (list Effect) CommandError () :=
  if negb (nodeIsAccountNode r) then mret ()
  else
    match accountTenants r with
    | None => mret ()
    | Some tenantIds =>
        subscriptions ←
          match fetchAll r tenantIds [] with
          | Promise.Resolved subscriptions => mret subscriptions
          | Promise.Rejected error =>
              _ ← effect MarkStale;
              Promise.throw (AzureResourceCredentialError error)
          end;
        saved ← awaitOther (getSelectedSubscriptions r);
        let items := subscriptionQuickPickItems localeCompare subscriptions saved in
        _ ← effect (QuickPickShown items);
        match showQuickPick r items with
        | Some picked =>
            if (0 <? length picked)%nat then
              _ ← refreshTrees r (trees r) 0;
              let selected := subscription <$> picked in
              _ ← effect (SelectionSaved selected);
              awaitOther (saveSelectedSubscriptions r selected)
            else mret ()
        | None => mret ()
        end
    end.
End SelectCommand.

Ltac unfold_effects :=
  unfold effect, awaitOther, Promise.tryCatch, mbind, task_bind, Promise.bind,
    Promise.await, Promise.throw, Promise.modify, mret, task_ret, Promise.ret.

(** The refresh loop refreshes the trees in order, stopping at the first
    that fails. *)
Lemma refreshTrees_log r remaining : ∀ next log0,
  ∃ k, k ≤ remaining ∧
    (refreshTrees r remaining next log0).2 = log0 ++ (TreeRefreshed <$> seq next k) ∧
    ((refreshTrees r remaining next log0).1 = Promise.Resolved () → k = remaining).
Proof.
  induction remaining as [|remaining IH]; intros next log0.
  - exists 0. simpl. by rewrite (right_id_L [] (++)).
  - simpl. unfold_effects. destruct (refreshTree r next) as [[]|error]; simpl.
    + destruct (IH (S next) (log0 ++ [TreeRefreshed next])) as (k & Hk & Hlog & Hall).
      exists (S k). split_and!; [lia| |].
      * rewrite Hlog. simpl. by rewrite <- (assoc_L (++)).
      * intros Hresolved. by rewrite (Hall Hresolved).
    + exists 1. split_and!; [lia|done|done].
Qed.

(** X15. [azure.resource.selectsubscriptions] gives up as soon as fetching
    a tenant's subscriptions fails: the account is marked stale, the command
    rejects with [AzureResourceCredentialError], and nothing is shown or
    saved.  A selection is saved only when every tenant was fetched and the
    user picked at least one item; it is then the subscriptions of the
    picked items, saved after every tree was refreshed; and when the quick
    pick answers with items it was shown, every saved subscription is a
    fetched one. *)
Theorem selectSubscriptions_saves_picked
    (localeCompare : string → string → Z) (r : SelectRequest) :
  let result := selectSubscriptions localeCompare r [] in
  (∀ tenantIds error,
     nodeIsAccountNode r = true → accountTenants r = Some tenantIds →
     fetchAll r tenantIds [] = Promise.Rejected error →
     result = (Promise.Rejected (AzureResourceCredentialError error), [MarkStale])) ∧
  (∀ selected, SelectionSaved selected ∈ result.2 →
     ∃ tenantIds subscriptions saved picked,
       accountTenants r = Some tenantIds ∧
       fetchAll r tenantIds [] = Promise.Resolved subscriptions ∧
       getSelectedSubscriptions r = Promise.Resolved saved ∧
       showQuickPick r (subscriptionQuickPickItems localeCompare subscriptions saved)
         = Some picked ∧
       picked ≠ [] ∧
       selected = subscription <$> picked ∧
       (∀ tree, tree < trees r → TreeRefreshed tree ∈ result.2) ∧
       ((∀ item, item ∈ picked →
           item ∈ subscriptionQuickPickItems localeCompare subscriptions saved) →
        ∀ s, s ∈ selected → s ∈ subscriptions)).
Proof.
  intros result. subst result. unfold selectSubscriptions. split.
  - intros tenantIds error -> -> Hfetch. simpl. unfold_effects. by rewrite Hfetch.
  - intros selected.
    destruct (nodeIsAccountNode r); simpl; [|by intros ?%elem_of_nil].
    destruct (accountTenants r) as [tenantIds|]; [|by intros ?%elem_of_nil].
    unfold_effects.
    destruct (fetchAll r tenantIds []) as [subscriptions|error] eqn:Hfetch; simpl.
    2: { intros Hin. apply list_elem_of_singleton in Hin. discriminate Hin. }
    destruct (getSelectedSubscriptions r) as [saved|error]; simpl;
      [|by intros ?%elem_of_nil].
    destruct (showQuickPick r _) as [picked|] eqn:Hpicked; simpl.
    2: { intros Hin. apply list_elem_of_singleton in Hin. discriminate Hin. }
    destruct picked as [|item picked]; simpl.
    { intros Hin. apply list_elem_of_singleton in Hin. discriminate Hin. }
    destruct (refreshTrees_log r (trees r) 0
                [QuickPickShown (subscriptionQuickPickItems localeCompare subscriptions saved)])
      as (k & Hk & Hlog & Hall).
    destruct (refreshTrees r (trees r) 0 _) as [[[]|error] log] eqn:Hrefresh;
      simpl in Hlog, Hall; subst log.
    2: { simpl. intros Hin. apply elem_of_cons in Hin as [Hin|Hin]; [discriminate Hin|].
         apply list_elem_of_fmap in Hin as (? & Hin & _). discriminate Hin. }
    rewrite (Hall eq_refl).
    intros Hin.
    assert (Hselected : selected = subscription item :: (subscription <$> picked)).
    { destruct (saveSelectedSubscriptions r _); simpl in Hin;
        apply elem_of_cons in Hin as [Hin|Hin]; try discriminate Hin;
        (apply elem_of_app in Hin as [Hin|Hin];
         [apply list_elem_of_fmap in Hin as (? & Hin & _); discriminate Hin
         |apply list_elem_of_singleton in Hin; by injection Hin]). }
    exists tenantIds, subscriptions, saved, (item :: picked).
    split_and!; try done.
    + intros tree Htree.
      assert (Hrefreshed : TreeRefreshed tree ∈ TreeRefreshed <$> seq 0 (trees r)).
      { apply list_elem_of_fmap_2, list_elem_of_In, in_seq. lia. }
      destruct (saveSelectedSubscriptions r _); simpl;
        apply elem_of_cons; right; apply elem_of_app; by left.
    + intros Hhonest s Hs. rewrite Hselected in Hs.
      change (s ∈ subscription <$> item :: picked) in Hs.
      apply list_elem_of_fmap in Hs as (picked1 & -> & Hpicked1).
      apply Hhonest, elem_of_subscriptionQuickPickItems in Hpicked1 as (s0 & Hs0 & ->).
      done.
Qed.

Definition sampleSelect : SelectRequest :=
  {| nodeIsAccountNode := true;
     accountTenants := Some ["t1"; "t2"];
     fetchSubscriptions := fun tenantId =>
       if bool_decide (tenantId = "t1") then Promise.Resolved [sub "1" "dev"]
       else Promise.Rejected "token expired";
     getSelectedSubscriptions := Promise.Resolved None;
     showQuickPick := fun items => Some items;
     trees := 2;
     refreshTree := fun _ => Promise.Resolved ();
     saveSelectedSubscriptions := fun _ => Promise.Resolved () |}.

Lemma selectSubscriptions_saves_picked_witness :
  selectSubscriptions compareStrings sampleSelect [] =
    (Promise.Rejected (AzureResourceCredentialError "token expired"), [MarkStale]).
Proof.
  destruct (selectSubscriptions_saves_picked compareStrings sampleSelect) as [Hfails _].
  by apply (Hfails ["t1"; "t2"] "token expired").
Defined.

End AzureResourceCommands.

(** ** The Jupyter server installation ([jupyter/jupyterServerInstallation.ts]) *)
Module JupyterServerInstallation.

(** *** Listing installed packages *)

Record PythonPkgDetails := {
  pkgName : string;
  pkgVersion : string;
  pkgChannel : option string
}.

(** What [JSON.parse] returns, as far as its callers look: a falsy value
    ([null], [false], [0], the empty string), an array, whose elements are
    package objects or something without fields ([None]), or another truthy
    value. *)
Inductive JsonValue :=
| JsonFalsy
| JsonArray (elements : list (option PythonPkgDetails))
| JsonOther.

Inductive Thrown :=
| CommandError (message : string)
| SyntaxError (message : string)
| TypeError (message : string).

(** A line of the output channel. *)
Inductive OutputLine :=
| msgPackageRetrievalFailed (err : Thrown).

(** The host: files, settings, child processes and [JSON.parse]. *)
Record Host := {
  platformIsWindows : bool;
  pythonBundleVersion : string;
  pathJoin : list string → string;
  existsSync : string → bool;
  configPythonPath : option string;
  configExistingPython : bool;
  executeBufferedCommand : string → Promise.Outcome Thrown string;
  JSONparse : string → Promise.Outcome Thrown JsonValue
}.

(** The fields of the installation the listing functions read. *)
Record Installation := {
  pythonInstallationPath : string;
  pythonExecutable : option string
}.

Definition truthy (s : string) : bool := negb (bool_decide (s = "")).

Definition quoted (s : string) : string :=
  String "034"%char s +:+ String "034"%char "".

Section Listing.
Variable host : Host.
Variable this : Installation.

Definition getPythonPathSetting : option string :=
  match configPythonPath host with
  | Some configured =>
      if truthy configured && existsSync host configured then Some configured else None
  | None => None
  end.

Definition getPythonExePath (pythonInstallPath : string) (useExistingInstall : bool)
  : string :=
  pathJoin host
    [pythonInstallPath;
     if useExistingInstall then "" else pythonBundleVersion host;
     if platformIsWindows host then "python.exe" else "bin/python3"].

Definition isPythonInstalled : bool :=
  match getPythonPathSetting with
  | None => false
  | Some pathSetting =>
      existsSync host (getPythonExePath pathSetting (configExistingPython host))
  end.

Definition getCondaExePath : string :=
  pathJoin host
    [pythonInstallationPath this;
     if platformIsWindows host then "Scripts\conda.exe" else "bin/conda"].

Definition isCondaInstalled : bool := existsSync host getCondaExePath.

Definition appendLine (line : OutputLine) : Promise.Task (list OutputLine) Thrown () :=
  Promise.modify (fun lines => lines ++ [line]).

(** [pythonExePath] is [None] when the argument is left out. *)
Definition pythonIsMissing (pythonExePath : option string) : bool :=
  match pythonExePath with
  | Some exe => if truthy exe then negb (existsSync host exe) else negb isPythonInstalled
  | None => negb isPythonInstalled
  end.

Definition pipListCommand (pythonExePath : option string) : string :=
  quoted (match pythonExePath with
          | Some exe => exe
          | None => default "undefined" (pythonExecutable this)
          end) +:+ " -m pip list --format=json".

(** The result is whatever truthy value was parsed: the cast to
    [PythonPkgDetails[]] checks nothing. *)
Definition getInstalledPipPackages (pythonExePath : option string)
  : Promise.Task (list OutputLine) Thrown JsonValue :=
  Promise.tryCatch
    (if pythonIsMissing pythonExePath then mret (JsonArray [])
     else
       packagesInfo ← Promise.await (executeBufferedCommand host (pipListCommand pythonExePath));
       if truthy packagesInfo then
         parsedResult ← Promise.await (JSONparse host packagesInfo);
         match parsedResult with
         | JsonFalsy => mret (JsonArray [])
         | _ => mret parsedResult
         end
       else mret (JsonArray []))
    (fun err : Thrown =>
       _ ← appendLine (msgPackageRetrievalFailed err);
       mret (JsonArray [])).

(** [pkg && pkg.channel && pkg.channel !== 'pypi'] *)
Definition fromCondaChannel (pkg : option PythonPkgDetails) : bool :=
  match pkg with
  | Some details =>
      match pkgChannel details with
      | Some channel => truthy channel && negb (bool_decide (channel = "pypi"))
      | None => false
      end
  | None => false
  end.

Definition getInstalledCondaPackages
  : Promise.Task (list OutputLine) Thrown (list (option PythonPkgDetails)) :=
  Promise.tryCatch
    (if negb isCondaInstalled then mret []
     else
       let cmd := quoted getCondaExePath +:+ " list --json" in
       packagesInfo ← Promise.await (executeBufferedCommand host cmd);
       if truthy packagesInfo then
         parsedResult ← Promise.await (JSONparse host packagesInfo);
         match parsedResult with
         | JsonFalsy => mret []
         | JsonArray elements => mret (List.filter fromCondaChannel elements)
         | JsonOther => Promise.throw (TypeError "parsedResult.filter is not a function")
         end
       else mret [])
    (fun err : Thrown =>
       _ ← appendLine (msgPackageRetrievalFailed err);
       mret []).
End Listing.

(** *** The installation process

    [startInstallProcess] and [promptForPythonInstall] run on one thread and
    give way at each [await].  The state below is what the instance and its
    suspended calls hold between two such points, and an [Event] is one
    uninterrupted stretch of code. *)

Definition msgPythonRunningError : string :=
  "Cannot overwrite an existing Python installation while python is running. Please close any active notebooks before proceeding.".
Definition msgWaitingForInstall : string :=
  "Another Python installation is currently in progress. Waiting for it to complete.".

(** The state of the promise of a [Deferred]. *)
Inductive PromiseState :=
| Pending
| Fulfilled
| RejectedWith (reason : string).

Record State := {
  runningOnSAW : bool;
  (** [_installInProgress] *)
  installInProgress : bool;
  (** [_installCompletion]: which [Deferred], if the field is set *)
  installCompletion : option nat;
  (** every [Deferred] made so far, in order of creation *)
  deferreds : list PromiseState;
  (** [startInstallProcess] calls waiting for [isPythonRunning] *)
  checkingPython : nat;
  (** the [startInstallProcess] call waiting for [configurePackagePaths],
      with the [Deferred] it made *)
  configuring : option nat;
  (** the background operations whose [installDependencies] has not
      settled, each with the [Deferred] made by the call that started it *)
  running : list nat;
  (** [vscode.window.showInformationMessage] *)
  informationMessages : list string
}.

Inductive Event :=
(** [startInstallProcess] is called, up to its first [await]. *)
| StartInstallProcess (existingPython : bool)
(** [await this.isPythonRunning(...)] gives its answer to a waiting call. *)
| PythonCheckDone (isPythonRunning : bool)
(** [await this.configurePackagePaths()] settles for the starting call. *)
| ConfigurePackagePathsDone (succeeded : bool)
(** The chain on [installDependencies] reaches its last handler. *)
| InstallDependenciesDone (succeeded : bool)
(** [promptForPythonInstall] is called, up to its first [await]. *)
| PromptForPythonInstall.

(** What the call that ran in an event returns, when it returns there. *)
Inductive Returned :=
| ReturnsResolved
| ReturnsRejected (reason : string)
| ReturnsCompletion (deferred : nat)
| StillRunning
| NoCall.

Definition initial (saw : bool) : State :=
  {| runningOnSAW := saw; installInProgress := false; installCompletion := None;
     deferreds := []; checkingPython := 0; configuring := None; running := [];
     informationMessages := [] |}.

Definition showInformationMessage (message : string) (s : State) : State :=
  {| runningOnSAW := runningOnSAW s; installInProgress := installInProgress s;
     installCompletion := installCompletion s; deferreds := deferreds s;
     checkingPython := checkingPython s; configuring := configuring s;
     running := running s;
     informationMessages := informationMessages s ++ [message] |}.

Definition withCheckingPython (n : nat) (s : State) : State :=
  {| runningOnSAW := runningOnSAW s; installInProgress := installInProgress s;
     installCompletion := installCompletion s; deferreds := deferreds s;
     checkingPython := n; configuring := configuring s; running := running s;
     informationMessages := informationMessages s |}.

(** [return this._installCompletion.promise] *)
Definition completionPromise (s : State) : Returned :=
  match installCompletion s with
  | Some d => ReturnsCompletion d
  | None => ReturnsRejected "TypeError"
  end.

(** [startInstallProcess] from [if (this._installInProgress)] up to
    [await this.configurePackagePaths()]. *)
Definition fromInProgressCheck (s : State) : State * Returned :=
  if installInProgress s then
    (showInformationMessage msgWaitingForInstall s, completionPromise s)
  else
    let d := length (deferreds s) in
    ({| runningOnSAW := runningOnSAW s; installInProgress := true;
        installCompletion := Some d; deferreds := deferreds s ++ [Pending];
        checkingPython := checkingPython s; configuring := Some d;
        running := running s; informationMessages := informationMessages s |},
     StillRunning).

(** [resolve] and [reject] of a [Deferred] act on a pending promise only. *)
Definition settle (d : nat) (outcome : PromiseState) (l : list PromiseState)
  : list PromiseState :=
  match l !! d with
  | Some Pending => <[d := outcome]> l
  | _ => l
  end.

Definition settleCompletion (outcome : PromiseState) (s : State) : list PromiseState :=
  match installCompletion s with
  | Some d => settle d outcome (deferreds s)
  | None => deferreds s
  end.

Definition step (s : State) (e : Event) : State * Returned :=
  match e with
  | StartInstallProcess existingPython =>
      if existingPython then fromInProgressCheck s
      else (withCheckingPython (S (checkingPython s)) s, StillRunning)
  | PythonCheckDone isPythonRunning =>
      match checkingPython s with
      | 0 => (s, NoCall)
      | S waiting =>
          if isPythonRunning
          then (withCheckingPython waiting s, ReturnsRejected msgPythonRunningError)
          else fromInProgressCheck (withCheckingPython waiting s)
      end
  | ConfigurePackagePathsDone succeeded =>
      match configuring s with
      | None => (s, NoCall)
      | Some d =>
          let s' :=
            {| runningOnSAW := runningOnSAW s; installInProgress := installInProgress s;
               installCompletion := installCompletion s; deferreds := deferreds s;
               checkingPython := checkingPython s; configuring := None;
               running := if succeeded then d :: running s else running s;
               informationMessages := informationMessages s |} in
          (s', if succeeded then completionPromise s'
               else ReturnsRejected "configurePackagePaths")
      end
  | InstallDependenciesDone succeeded =>
      match running s with
      | [] => (s, NoCall)
      | _ :: others =>
          ({| runningOnSAW := runningOnSAW s; installInProgress := false;
              installCompletion := installCompletion s;
              deferreds :=
                settleCompletion
                  (if succeeded then Fulfilled
                   else RejectedWith "msgDependenciesInstallationFailed") s;
              checkingPython := checkingPython s; configuring := configuring s;
              running := others; informationMessages := informationMessages s |},
           NoCall)
      end
  | PromptForPythonInstall =>
      if runningOnSAW s then (s, ReturnsResolved)
      else if installInProgress s then
        (showInformationMessage msgWaitingForInstall s, completionPromise s)
      else (s, StillRunning)
  end.

Definition run (s : State) (events : list Event) : State :=
  foldl (fun s e => (step s e).1) s events.

(** The installations under way: operations running, and the one about to
    be started. *)
Definition installations (s : State) : nat :=
  length (running s) + match configuring s with Some _ => 1 | None => 0 end.

(** The events in which a call gets to an [if (this._installInProgress)]. *)
Definition reachesInProgressCheck (s : State) (e : Event) : bool :=
  match e with
  | StartInstallProcess existingPython => existingPython
  | PythonCheckDone isPythonRunning => negb isPythonRunning && (0 <? checkingPython s)
  | PromptForPythonInstall => negb (runningOnSAW s)
  | _ => false
  end.

(** The events in which a call returns or goes on. *)
Definition returnsFromCall (s : State) (e : Event) : bool :=
  match e with
  | StartInstallProcess existingPython => existingPython
  | PythonCheckDone _ => 0 <? checkingPython s
  | PromptForPythonInstall => true
  | _ => false
  end.

(** The events that run code of [startInstallProcess] up to its check, or
    of [promptForPythonInstall]. *)
Definition isCallEvent (e : Event) : bool :=
  match e with
  | StartInstallProcess _ | PythonCheckDone _ | PromptForPythonInstall => true
  | _ => false
  end.

(** What a call returns when a guard placed before the check on
    [_installInProgress] fires. *)
Definition guardResult (e : Event) : Returned :=
  match e with
  | PromptForPythonInstall => ReturnsResolved
  | _ => ReturnsRejected msgPythonRunningError
  end.

(** The claim as worded: every call that returns while an installation is
    in progress returns the completion promise of that installation. *)
Definition everyCallReturnsCompletion : Prop :=
  ∀ (saw : bool) (events : list Event) (e : Event),
    let s := run (initial saw) events in
    installInProgress s = true → returnsFromCall s e = true →
    ∃ d, installCompletion s = Some d ∧ (step s e).2 = ReturnsCompletion d.

(** A host on which python is installed and [pip list] prints [output]. *)
Definition sampleHost (pipOutput : Promise.Outcome Thrown string) : Host :=
  {| platformIsWindows := false;
     pythonBundleVersion := "0.0.1";
     pathJoin := fun parts => foldr (fun part rest => part +:+ "/" +:+ rest) "" parts;
     existsSync := fun _ => true;
     configPythonPath := Some "/opt/python";
     configExistingPython := true;
     executeBufferedCommand := fun _ => pipOutput;
     JSONparse := fun text =>
       if bool_decide (text = "[]") then Promise.Resolved (JsonArray [])
       else if bool_decide (text = "null") then Promise.Resolved JsonFalsy
       else Promise.Rejected (SyntaxError "Unexpected token") |}.

Definition sampleInstallation : Installation :=
  {| pythonInstallationPath := "/opt/python";
     pythonExecutable := Some "/opt/python/bin/python3" |}.

Example pip_list_empty :
  getInstalledPipPackages (sampleHost (Promise.Resolved "[]")) sampleInstallation None [] =
    (Promise.Resolved (JsonArray []), []).
Proof. vm_compute. reflexivity. Qed.

Example pip_list_unparsable :
  getInstalledPipPackages (sampleHost (Promise.Resolved "pip: error")) sampleInstallation None [] =
    (Promise.Resolved (JsonArray []),
     [msgPackageRetrievalFailed (SyntaxError "Unexpected token")]).
Proof. vm_compute. reflexivity. Qed.

Example conda_list_command_fails :
  getInstalledCondaPackages (sampleHost (Promise.Rejected (CommandError "exit 1")))
    sampleInstallation [] =
    (Promise.Resolved [], [msgPackageRetrievalFailed (CommandError "exit 1")]).
Proof. vm_compute. reflexivity. Qed.

Ltac unfold_task :=
  unfold Promise.tryCatch, mbind, task_bind, Promise.bind, Promise.await,
    Promise.throw, appendLine, Promise.modify, mret, task_ret, Promise.ret.

Lemma getInstalledPipPackages_resolves host this pythonExePath lines :
  ∃ packages lines',
    getInstalledPipPackages host this pythonExePath lines =
      (Promise.Resolved packages, lines').
Proof.
  unfold getInstalledPipPackages. unfold_task.
  destruct (pythonIsMissing host pythonExePath); [by eexists _, _|].
  destruct (executeBufferedCommand host _) as [packagesInfo|err]; [|by eexists _, _].
  destruct (truthy packagesInfo); [|by eexists _, _].
  destruct (JSONparse host packagesInfo) as [[]|err]; by eexists _, _.
Qed.

Lemma getInstalledCondaPackages_resolves host this lines :
  ∃ packages lines',
    getInstalledCondaPackages host this lines = (Promise.Resolved packages, lines').
Proof.
  unfold getInstalledCondaPackages. unfold_task.
  destruct (isCondaInstalled host this); cbn [negb]; [|by eexists _, _].
  destruct (executeBufferedCommand host _) as [packagesInfo|err]; [|by eexists _, _].
  destruct (truthy packagesInfo); [|by eexists _, _].
  destruct (JSONparse host packagesInfo) as [[]|err]; by eexists _, _.
Qed.

(** C9. [getInstalledPipPackages] and [getInstalledCondaPackages] never
    reject.  When python (respectively conda) is not installed they resolve
    to the empty list; when the list command fails, or parsing its output
    does, they write the failure to the output channel and resolve to the
    empty list. *)
Theorem package_listing_never_rejects
    (host : Host) (this : Installation) (pythonExePath : option string)
    (lines : list OutputLine) :
  let pip := getInstalledPipPackages host this pythonExePath lines in
  let conda := getInstalledCondaPackages host this lines in
  let pipList := executeBufferedCommand host (pipListCommand this pythonExePath) in
  let condaList :=
    executeBufferedCommand host (quoted (getCondaExePath host this) +:+ " list --json") in
  (∃ packages lines', pip = (Promise.Resolved packages, lines')) ∧
  (∃ packages lines', conda = (Promise.Resolved packages, lines')) ∧
  (pythonIsMissing host pythonExePath = true →
     pip = (Promise.Resolved (JsonArray []), lines)) ∧
  (isCondaInstalled host this = false → conda = (Promise.Resolved [], lines)) ∧
  (∀ err, pythonIsMissing host pythonExePath = false →
     pipList = Promise.Rejected err →
     pip = (Promise.Resolved (JsonArray []), lines ++ [msgPackageRetrievalFailed err])) ∧
  (∀ err, isCondaInstalled host this = true →
     condaList = Promise.Rejected err →
     conda = (Promise.Resolved [], lines ++ [msgPackageRetrievalFailed err])) ∧
  (∀ packagesInfo err, pythonIsMissing host pythonExePath = false →
     pipList = Promise.Resolved packagesInfo → truthy packagesInfo = true →
     JSONparse host packagesInfo = Promise.Rejected err →
     pip = (Promise.Resolved (JsonArray []), lines ++ [msgPackageRetrievalFailed err])) ∧
  (∀ packagesInfo err, isCondaInstalled host this = true →
     condaList = Promise.Resolved packagesInfo → truthy packagesInfo = true →
     JSONparse host packagesInfo = Promise.Rejected err →
     conda = (Promise.Resolved [], lines ++ [msgPackageRetrievalFailed err])).
Proof.
  intros pip conda pipList condaList. subst pip conda pipList condaList.
  split_and!.
  - apply getInstalledPipPackages_resolves.
  - apply getInstalledCondaPackages_resolves.
  - intros Hmissing. unfold getInstalledPipPackages. unfold_task. by rewrite Hmissing.
  - intros Hconda. unfold getInstalledCondaPackages. unfold_task. by rewrite Hconda.
  - intros err Hpython Hlist. unfold getInstalledPipPackages. unfold_task.
    by rewrite Hpython, Hlist.
  - intros err Hconda Hlist. unfold getInstalledCondaPackages. unfold_task.
    by rewrite Hconda, Hlist.
  - intros packagesInfo err Hpython Hlist Htruthy Hparse.
    unfold getInstalledPipPackages. unfold_task.
    by rewrite Hpython, Hlist, Htruthy, Hparse.
  - intros packagesInfo err Hconda Hlist Htruthy Hparse.
    unfold getInstalledCondaPackages. unfold_task.
    by rewrite Hconda, Hlist, Htruthy, Hparse.
Qed.

Lemma package_listing_never_rejects_witness :
  getInstalledPipPackages (sampleHost (Promise.Resolved "pip: error")) sampleInstallation None [] =
    (Promise.Resolved (JsonArray []),
     [msgPackageRetrievalFailed (SyntaxError "Unexpected token")]).
Proof.
  pose proof (package_listing_never_rejects
                (sampleHost (Promise.Resolved "pip: error")) sampleInstallation None [])
    as H.
  cbv zeta in H. destruct H as (_ & _ & _ & _ & _ & _ & Hparse & _).
  apply (Hparse "pip: error" (SyntaxError "Unexpected token")); vm_compute; reflexivity.
Defined.

(** *** At most one installation *)

Example two_calls_one_installation :
  let s := run (initial false)
             [StartInstallProcess true; ConfigurePackagePathsDone true;
              StartInstallProcess true; PromptForPythonInstall] in
  running s = [0] ∧ deferreds s = [Pending] ∧
  (step s (StartInstallProcess true)).2 = ReturnsCompletion 0 ∧
  deferreds (run s [InstallDependenciesDone true]) = [Fulfilled] ∧
  installInProgress (run s [InstallDependenciesDone true]) = false.
Proof. vm_compute. done. Qed.

(** What holds of the instance between any two events. *)
Record Invariant (s : State) : Prop := {
  inv_installations : installations s ≤ 1;
  inv_running : ∀ d, d ∈ running s →
    installInProgress s = true ∧ installCompletion s = Some d;
  inv_configuring : ∀ d, configuring s = Some d →
    installInProgress s = true ∧ installCompletion s = Some d;
  inv_completion : installInProgress s = true →
    ∃ d, installCompletion s = Some d ∧ deferreds s !! d = Some Pending
}.

Lemma Invariant_initial saw : Invariant (initial saw).
Proof.
  split; simpl; [unfold installations; simpl; lia|..].
  - by intros d ?%elem_of_nil.
  - done.
  - done.
Qed.

Lemma Invariant_showInformationMessage message s :
  Invariant s → Invariant (showInformationMessage message s).
Proof. intros []. by split. Qed.

Lemma Invariant_withCheckingPython n s :
  Invariant s → Invariant (withCheckingPython n s).
Proof. intros []. by split. Qed.

Lemma Invariant_fromInProgressCheck s :
  Invariant s → Invariant (fromInProgressCheck s).1.
Proof.
  intros Hinv. unfold fromInProgressCheck.
  destruct (installInProgress s) eqn:Hflag; simpl.
  { by apply Invariant_showInformationMessage. }
  destruct Hinv as [Hone Hrunning Hconfiguring _].
  assert (Hidle : running s = []).
  { destruct (running s) as [|d others] eqn:Hr; [done|].
    destruct (Hrunning d) as [? _]; [left|congruence]. }
  assert (Hnone : configuring s = None).
  { destruct (configuring s) as [d|] eqn:Hc; [|done].
    destruct (Hconfiguring d) as [? _]; [done|congruence]. }
  split; simpl.
  - unfold installations; simpl. rewrite Hidle. simpl. lia.
  - rewrite Hidle. by intros d ?%elem_of_nil.
  - by intros d [= <-].
  - intros _. eexists. split; [done|].
    by rewrite lookup_app_r, Nat.sub_diag.
Qed.

Lemma Invariant_step s e : Invariant s → Invariant (step s e).1.
Proof.
  intros Hinv. destruct e as [existingPython|isPythonRunning|succeeded|succeeded|]; simpl.
  - destruct existingPython; simpl.
    + by apply Invariant_fromInProgressCheck.
    + by apply Invariant_withCheckingPython.
  - destruct (checkingPython s) as [|waiting]; [done|].
    destruct isPythonRunning; simpl.
    + by apply Invariant_withCheckingPython.
    + by apply Invariant_fromInProgressCheck, Invariant_withCheckingPython.
  - destruct (configuring s) as [d|] eqn:Hc; [|done]. simpl.
    destruct Hinv as [Hone Hrunning Hconfiguring Hcompletion].
    destruct (Hconfiguring d Hc) as [Hflag Hd].
    unfold installations in Hone. rewrite Hc in Hone.
    assert (Hidle : running s = []) by (destruct (running s); [done|simpl in Hone; lia]).
    split; simpl.
    + unfold installations; simpl. rewrite Hidle. destruct succeeded; simpl; lia.
    + rewrite Hidle. intros d' Hd'. destruct succeeded.
      * apply list_elem_of_singleton in Hd' as ->. done.
      * by apply elem_of_nil in Hd'.
    + done.
    + done.
  - destruct (running s) as [|d others] eqn:Hr; [done|]. simpl.
    destruct Hinv as [Hone Hrunning Hconfiguring Hcompletion].
    unfold installations in Hone. rewrite Hr in Hone. simpl in Hone.
    assert (Hothers : others = []) by (destruct others; [done|simpl in Hone; lia]).
    assert (Hnone : configuring s = None) by (destruct (configuring s); [lia|done]).
    split; simpl.
    + unfold installations; simpl. rewrite Hothers, Hnone. simpl. lia.
    + rewrite Hothers. by intros d' ?%elem_of_nil.
    + by rewrite Hnone.
    + done.
  - destruct (runningOnSAW s); [done|].
    destruct (installInProgress s); [|done].
    by apply Invariant_showInformationMessage.
Qed.

Lemma run_snoc s events e : run s (events ++ [e]) = (step (run s events) e).1.
Proof. unfold run. by rewrite foldl_snoc. Qed.

Lemma Invariant_run saw events : Invariant (run (initial saw) events).
Proof.
  induction events as [|e events IH] using rev_ind.
  - apply Invariant_initial.
  - rewrite run_snoc. by apply Invariant_step.
Qed.

(** A call that gets to the check while the flag is set returns the
    completion promise and starts nothing. *)
Lemma fromInProgressCheck_in_progress s d :
  installInProgress s = true → installCompletion s = Some d →
  fromInProgressCheck s = (showInformationMessage msgWaitingForInstall s, ReturnsCompletion d).
Proof.
  intros Hflag Hd. unfold fromInProgressCheck, completionPromise. by rewrite Hflag, Hd.
Qed.

Lemma settle_lookup_ne d d' outcome l :
  d ≠ d' → settle d outcome l !! d' = l !! d'.
Proof.
  intros Hne. unfold settle. destruct (l !! d) as [[]|]; try done.
  by rewrite list_lookup_insert_ne.
Qed.

(** A promise leaves [Pending] only in the event that ends the operation
    started for it. *)
Lemma step_settles s e d :
  Invariant s →
  deferreds s !! d = Some Pending →
  deferreds (step s e).1 !! d ≠ Some Pending →
  ∃ succeeded, e = InstallDependenciesDone succeeded ∧ running s = [d].
Proof.
  intros Hinv Hpending Hsettled.
  destruct e as [existingPython|isPythonRunning|succeeded|succeeded|]; simpl in Hsettled.
  - destruct existingPython; simpl in Hsettled; [|done].
    unfold fromInProgressCheck in Hsettled.
    destruct (installInProgress s); simpl in Hsettled; [done|].
    rewrite lookup_app_l in Hsettled by (by eapply lookup_lt_Some). done.
  - destruct (checkingPython s); [done|].
    destruct isPythonRunning; simpl in Hsettled; [done|].
    unfold fromInProgressCheck in Hsettled. simpl in Hsettled.
    destruct (installInProgress s); simpl in Hsettled; [done|].
    rewrite lookup_app_l in Hsettled by (by eapply lookup_lt_Some). done.
  - by destruct (configuring s).
  - destruct (running s) as [|d' others] eqn:Hr; [done|]. simpl in Hsettled.
    destruct Hinv as [Hone Hrunning _ _].
    destruct (Hrunning d') as [_ Hd']; [rewrite Hr; left|].
    unfold installations in Hone. rewrite Hr in Hone. simpl in Hone.
    assert (others = []) as -> by (destruct others; [done|simpl in Hone; lia]).
    unfold settleCompletion in Hsettled. rewrite Hd' in Hsettled.
    exists succeeded. split; [done|].
    destruct (decide (d' = d)) as [->|Hne]; [done|].
    by rewrite settle_lookup_ne in Hsettled.
  - destruct (runningOnSAW s); [done|]. by destruct (installInProgress s).
Qed.

Lemma step_call_in_progress s e d :
  installInProgress s = true → installCompletion s = Some d →
  isCallEvent e = true →
  let s' := (step s e).1 in
  running s' = running s ∧ configuring s' = configuring s ∧
  deferreds s' = deferreds s ∧ installInProgress s' = true ∧
  installCompletion s' = Some d ∧
  (returnsFromCall s e = true →
     (step s e).2 =
       if reachesInProgressCheck s e then ReturnsCompletion d else guardResult e).
Proof.
  intros Hflag Hd Hcall.
  destruct e as [existingPython|isPythonRunning| | |]; try done; simpl.
  - destruct existingPython; simpl; [|done].
    by rewrite (fromInProgressCheck_in_progress s d).
  - destruct (checkingPython s) as [|waiting] eqn:Hwaiting; simpl; [done|].
    destruct isPythonRunning; simpl; [done|].
    by rewrite (fromInProgressCheck_in_progress _ d).
  - destruct (runningOnSAW s); simpl; [done|].
    unfold completionPromise. by rewrite Hflag, Hd.
Qed.

(** The claim as worded fails: a call whose python check finds python
    running while an installation is in progress is rejected with
    [msgPythonRunningError]. *)
Lemma not_everyCallReturnsCompletion : ¬ everyCallReturnsCompletion.
Proof.
  intros Hclaim.
  destruct (Hclaim false
              [StartInstallProcess true; ConfigurePackagePathsDone true;
               StartInstallProcess false]
              (PythonCheckDone true)) as (d & _ & Hreturned).
  - reflexivity.
  - reflexivity.
  - vm_compute in Hreturned. discriminate Hreturned.
Qed.

(** On a secure workstation [promptForPythonInstall] resolves at once, an
    installation in progress or not. *)
Example prompt_on_SAW_resolves :
  let s := run (initial true) [StartInstallProcess true] in
  installInProgress s = true ∧ step s PromptForPythonInstall = (s, ReturnsResolved).
Proof. vm_compute. done. Qed.

(** C5 (amended). At most one installation is under way at any time.  While
    [_installInProgress] is set, its completion promise is pending, and no
    call of [startInstallProcess] or [promptForPythonInstall] starts an
    installation or makes a new promise; a call that gets to its check of
    [_installInProgress] returns that completion promise, whereas
    [startInstallProcess] finding python running is rejected with
    [msgPythonRunningError] and [promptForPythonInstall] on a secure
    workstation resolves at once.  A completion promise settles only in the
    event that ends the installation it was made for. *)
Theorem at_most_one_installation (saw : bool) (events : list Event) (e : Event) :
  let s := run (initial saw) events in
  let s' := (step s e).1 in
  installations s ≤ 1 ∧
  (installInProgress s = true →
     ∃ d, installCompletion s = Some d ∧ deferreds s !! d = Some Pending ∧
       (isCallEvent e = true →
          running s' = running s ∧ configuring s' = configuring s ∧
          deferreds s' = deferreds s ∧ installInProgress s' = true ∧
          installCompletion s' = Some d) ∧
       (returnsFromCall s e = true →
          (step s e).2 =
            if reachesInProgressCheck s e then ReturnsCompletion d else guardResult e)) ∧
  (∀ d, deferreds s !! d = Some Pending → deferreds s' !! d ≠ Some Pending →
     ∃ succeeded, e = InstallDependenciesDone succeeded ∧ running s = [d]).
Proof.
  intros s s'. pose proof (Invariant_run saw events) as Hinv. fold s in Hinv.
  split_and!.
  - apply Hinv.
  - intros Hflag. destruct (inv_completion s Hinv Hflag) as (d & Hd & Hpending).
    exists d. split_and!; [done|done| |].
    + intros Hcall. by destruct (step_call_in_progress s e d Hflag Hd Hcall) as (?&?&?&?&?&_).
    + intros Hreturns.
      assert (Hcall : isCallEvent e = true) by (by destruct e as [[]| | | |]).
      destruct (step_call_in_progress s e d Hflag Hd Hcall) as (_&_&_&_&_&Hreturned).
      by apply Hreturned.
  - intros d. by apply step_settles.
Qed.

Lemma at_most_one_installation_witness :
  let s := run (initial false) [StartInstallProcess true; ConfigurePackagePathsDone true] in
  installations s ≤ 1 ∧
  (step s (StartInstallProcess true)).2 = ReturnsCompletion 0 ∧
  running (step s (StartInstallProcess true)).1 = running s.
Proof.
  pose proof (at_most_one_installation false
                [StartInstallProcess true; ConfigurePackagePathsDone true]
                (StartInstallProcess true)) as H.
  cbv zeta in H. destruct H as (Hone & Hcalls & _).
  destruct Hcalls as (d & Hd & _ & Hstarts & Hreturns); [reflexivity|].
  assert (d = 0) as -> by (vm_compute in Hd; congruence).
  cbv zeta. split_and!.
  - exact Hone.
  - apply Hreturns. reflexivity.
  - apply Hstarts. reflexivity.
Defined.

(** *** Required packages and the kernel setup cache *)

(** The kernel display names of [common/constants]. *)
Record KernelNames := {
  python3DisplayName : string;
  powershellDisplayName : string;
  pysparkDisplayName : string;
  sparkScalaDisplayName : string;
  sparkRDisplayName : string;
  allKernelsName : string
}.

Definition package (n v : string) : PythonPkgDetails :=
  {| pkgName := n; pkgVersion := v; pkgChannel := None |}.

Definition jupyterPkg : PythonPkgDetails := package "jupyter" "1.0.0".
Definition powershellPkg : PythonPkgDetails := package "powershell-kernel" "0.1.4".
Definition sparkPackages : list PythonPkgDetails :=
  [ jupyterPkg; package "sparkmagic" "0.12.9"; package "pandas" "0.24.2";
    package "prose-codeaccelerator" "1.3.0" ].
Definition allPackages : list PythonPkgDetails := sparkPackages ++ [powershellPkg].

(** [_requiredKernelPackages], as the constructor's [set] calls leave it. *)
Definition requiredKernelPackages (names : KernelNames)
  : gmap string (list PythonPkgDetails) :=
  <[allKernelsName names := allPackages]>
    (<[sparkRDisplayName names := sparkPackages]>
       (<[sparkScalaDisplayName names := sparkPackages]>
          (<[pysparkDisplayName names := sparkPackages]>
             (<[powershellDisplayName names := [jupyterPkg; powershellPkg]]>
                (<[python3DisplayName names := [jupyterPkg]]> ∅))))).


Definition getRequiredPackagesForKernel (names : KernelNames) (kernelName : string)
  : list PythonPkgDetails :=
  default [] (requiredKernelPackages names !! kernelName).

(** What the instance holds besides its paths: [_kernelSetupCache], and
    the commands handed to [executeStreamedCommand] so far. *)
Record Setup := {
  kernelSetupCache : gmap string bool;
  streamedCommands : list string
}.

Definition joinWith (separator : string) (parts : list string) : string :=
  match parts with
  | [] => ""
  | first :: rest => foldl (fun acc part => acc +:+ separator +:+ part) first rest
  end.

Section Packages.
Variable this : Installation.
(** [utils.comparePackageVersions] *)
Variable comparePackageVersions : string → string → Z.

Definition executeStreamedCommand (command : string) (s : Setup) : Setup :=
  {| kernelSetupCache := kernelSetupCache s;
     streamedCommands := streamedCommands s ++ [command] |}.


Definition packageSpec (versionSpecifier : string) (pkg : PythonPkgDetails) : string :=
  quoted (pkgName pkg +:+ versionSpecifier +:+ pkgVersion pkg).



(** [installPipPackages]: nothing is run for an empty list. *)
Definition installPipPackages (packages : list PythonPkgDetails) (useMinVersion : bool)
    (s : Setup) : Setup :=
  match packages with
  | [] => s
  | _ :: _ =>
      let versionSpecifier := if useMinVersion then ">=" else "==" in
      let packagesStr := joinWith " " (packageSpec versionSpecifier <$> packages) in
      executeStreamedCommand
        (quoted (default "undefined" (pythonExecutable this)) +:+ " -m pip install --user "
           +:+ packagesStr
           +:+ " --extra-index-url https://prose-python-packages.azurewebsites.net") s
  end.

(** [new Map] filled by [forEach(pkg => map.set(pkg.name, pkg.version))]. *)
Definition versionMap (installed : list PythonPkgDetails) : gmap string string :=
  foldl (fun m pkg => <[pkgName pkg := pkgVersion pkg]> m) ∅ installed.

(** [!installedVersion || comparePackageVersions(installedVersion, pkg.version) < 0] *)
Definition needsInstall (versions : gmap string string) (pkg : PythonPkgDetails) : bool :=
  match versions !! pkgName pkg with
  | Some installedVersion =>
      negb (truthy installedVersion)
      || (comparePackageVersions installedVersion (pkgVersion pkg) <? 0)%Z
  | None => true
  end.

(** [areRequiredPackagesInstalled], given what the awaited
    [getInstalledPipPackages()] holds.  The result comes with the instance
    afterwards. *)
Definition areRequiredPackagesInstalled (names : KernelNames)
    (installedPackages : list PythonPkgDetails) (kernelDisplayName : string) (s : Setup)
  : bool * Setup :=
  match kernelSetupCache s !! kernelDisplayName with
  | Some true => (true, s)
  | _ =>
      let installedPackageMap := versionMap installedPackages in
      let requiredPackages := getRequiredPackagesForKernel names kernelDisplayName in
      if existsb (needsInstall installedPackageMap) requiredPackages then (false, s)
      else (true, {| kernelSetupCache := <[kernelDisplayName := true]> (kernelSetupCache s);
                     streamedCommands := streamedCommands s |})
  end.

(** The packages [upgradePythonPackages] hands to [installPipPackages]. *)
Definition packagesToInstall (forceInstall : bool)
    (installedPipPackages packages : list PythonPkgDetails) : list PythonPkgDetails :=
  if forceInstall then packages
  else List.filter (needsInstall (versionMap installedPipPackages)) packages.

Definition upgradePythonPackages (forceInstall : bool)
    (installedPipPackages packages : list PythonPkgDetails) (s : Setup) : Setup :=
  match packagesToInstall forceInstall installedPipPackages packages with
  | [] => s
  | toInstall => installPipPackages toInstall true s
  end.
End Packages.

Definition sampleNames : KernelNames :=
  {| python3DisplayName := "Python 3"; powershellDisplayName := "PowerShell";
     pysparkDisplayName := "PySpark"; sparkScalaDisplayName := "Spark | Scala";
     sparkRDisplayName := "Spark | R"; allKernelsName := "All Kernels" |}.

Definition sampleSetup : Setup :=
  {| kernelSetupCache := {[ "Python 3" := true ]}; streamedCommands := [] |}.






Section PackageChecks.
Variable this : Installation.
Variable comparePackageVersions : string → string → Z.

Lemma existsb_false_filter {A} (f : A → bool) (l : list A) :
  existsb f l = false ↔ List.filter f l = [].
Proof.
  induction l as [|x l IH]; simpl; [done|].
  destruct (f x); simpl; [split; discriminate|done].
Qed.

(** The installed version the check reads for a name. *)
Definition listedVersion (installed : list PythonPkgDetails) (n : string) : option string :=
  versionMap installed !! n.

Lemma versionMap_snoc installed pkg :
  versionMap (installed ++ [pkg]) = <[pkgName pkg := pkgVersion pkg]> (versionMap installed).
Proof. unfold versionMap. by rewrite foldl_snoc. Qed.

(** The map holds, for each name, the version of the last entry listed
    under it. *)
Lemma versionMap_last installed n :
  versionMap installed !! n =
    pkgVersion <$> last (filter (fun pkg => pkgName pkg = n) installed).
Proof.
  induction installed as [|pkg installed IH] using rev_ind; [done|].
  rewrite versionMap_snoc, filter_app, lookup_insert. case_decide as Hname.
  - rewrite filter_cons_True, filter_nil by done. by rewrite last_snoc.
  - rewrite filter_cons_False, filter_nil by done. by rewrite (right_id_L [] (++)).
Qed.

Lemma needsInstall_false installed pkg :
  needsInstall comparePackageVersions (versionMap installed) pkg = false ↔
  ∃ installedVersion,
    pkgVersion <$> last (filter (fun p => pkgName p = pkgName pkg) installed)
      = Some installedVersion ∧
    installedVersion ≠ "" ∧
    (0 <= comparePackageVersions installedVersion (pkgVersion pkg))%Z.
Proof.
  unfold needsInstall. rewrite versionMap_last.
  destruct (pkgVersion <$> last _) as [v|]; [|split; [done|by intros (? & ? & _)]].
  unfold truthy. rewrite orb_false_iff, negb_false_iff, negb_true_iff,
    bool_decide_eq_false, Z.ltb_ge.
  split.
  - intros [? ?]. by exists v.
  - by intros (? & [= <-] & ? & ?).
Qed.

(** X5. [areRequiredPackagesInstalled] answers true for a kernel the cache
    has as set up, whatever pip would list.  Otherwise it answers from the
    listing that [getInstalledPipPackages] gave: true exactly when, for
    every package the kernel requires, the last entry listed under the
    package's name has a non-empty version that does not compare below the
    required one.  A true answer leaves the kernel marked in the cache; a
    false answer leaves the instance as it was. *)
Theorem areRequiredPackagesInstalled_checks_versions
    (names : KernelNames) (installed : list PythonPkgDetails)
    (kernelDisplayName : string) (s : Setup) :
  let result :=
    areRequiredPackagesInstalled comparePackageVersions names installed kernelDisplayName s in
  (kernelSetupCache s !! kernelDisplayName = Some true → result = (true, s)) ∧
  (kernelSetupCache s !! kernelDisplayName ≠ Some true →
     (result.1 = true ↔
      ∀ pkg, pkg ∈ getRequiredPackagesForKernel names kernelDisplayName →
        ∃ installedVersion,
          pkgVersion <$> last (filter (fun p => pkgName p = pkgName pkg) installed)
            = Some installedVersion ∧
          installedVersion ≠ "" ∧
          (0 <= comparePackageVersions installedVersion (pkgVersion pkg))%Z)) ∧
  (result.1 = true → kernelSetupCache result.2 !! kernelDisplayName = Some true) ∧
  (result.1 = false → result.2 = s).
Proof.
  intros result. subst result. unfold areRequiredPackagesInstalled.
  destruct (kernelSetupCache s !! kernelDisplayName) as [[|]|] eqn:Hcache.
  { split_and!; done. }
  all: destruct (existsb _ (getRequiredPackagesForKernel names kernelDisplayName))
    eqn:Hexists; simpl.
  all: split_and!; try done; try (by rewrite lookup_insert_eq).
  all: intros _; split; try done.
  all: try (intros Hall; apply existsb_exists in Hexists as (pkg & Hin & Hneeds);
            apply list_elem_of_In in Hin; apply Hall, needsInstall_false in Hin;
            congruence).
  all: intros _ pkg Hin; apply needsInstall_false;
    apply not_true_iff_false; intros Hneeds;
    apply not_true_iff_false in Hexists; apply Hexists;
    apply existsb_exists; exists pkg; split; [by apply list_elem_of_In|done].
Qed.

(** X6. [upgradePythonPackages] runs at most one command and leaves the
    cache alone.  Forced, it installs every package given; otherwise exactly
    the given packages that are missing or older than required, in order,
    and it runs nothing when there is none.  In particular, what
    [areRequiredPackagesInstalled] has just accepted from the same listing
    makes the upgrade of that kernel's packages run nothing. *)
Theorem upgradePythonPackages_installs_what_is_needed
    (names : KernelNames) (forceInstall : bool)
    (installed packages : list PythonPkgDetails) (kernelDisplayName : string) (s : Setup) :
  let toInstall := packagesToInstall comparePackageVersions forceInstall installed packages in
  let s' := upgradePythonPackages this comparePackageVersions forceInstall installed packages s in
  kernelSetupCache s' = kernelSetupCache s ∧
  (toInstall = [] → s' = s) ∧
  (toInstall ≠ [] → s' = installPipPackages this toInstall true s ∧
     length (streamedCommands s') = S (length (streamedCommands s))) ∧
  (forceInstall = true → toInstall = packages) ∧
  (forceInstall = false →
     ∀ pkg, pkg ∈ toInstall ↔
       pkg ∈ packages ∧
       needsInstall comparePackageVersions (versionMap installed) pkg = true) ∧
  (kernelSetupCache s !! kernelDisplayName ≠ Some true →
     (areRequiredPackagesInstalled comparePackageVersions names installed
        kernelDisplayName s).1 = true →
     upgradePythonPackages this comparePackageVersions false installed
       (getRequiredPackagesForKernel names kernelDisplayName) s = s).
Proof.
  intros toInstall s'. subst toInstall s'. unfold upgradePythonPackages. split_and!.
  - destruct (packagesToInstall _ _ _ _) as [|pkg rest]; [done|]. reflexivity.
  - by intros ->.
  - destruct (packagesToInstall _ _ _ _) as [|pkg rest]; [done|]. intros _.
    split; [done|]. simpl. rewrite length_app. simpl. lia.
  - by intros ->.
  - intros -> pkg. unfold packagesToInstall.
    rewrite list_elem_of_In, filter_In, <- list_elem_of_In. done.
  - intros Hcache Hchecked. unfold areRequiredPackagesInstalled in Hchecked.
    destruct (kernelSetupCache s !! kernelDisplayName) as [[|]|]; [done| |].
    all: destruct (existsb _ (getRequiredPackagesForKernel names kernelDisplayName))
      eqn:Hexists; [done|].
    all: apply existsb_false_filter in Hexists; unfold packagesToInstall;
      by rewrite Hexists.
Qed.
End PackageChecks.

Definition compareVersions (a b : string) : Z :=
  match String.compare a b with Lt => (-1)%Z | Eq => 0%Z | Gt => 1%Z end.

Definition freshSetup : Setup := {| kernelSetupCache := ∅; streamedCommands := [] |}.

Lemma areRequiredPackagesInstalled_checks_versions_witness :
  (areRequiredPackagesInstalled compareVersions sampleNames [package "jupyter" "1.0.0"]
     "Python 3" freshSetup).1 = true ∧
  areRequiredPackagesInstalled compareVersions sampleNames [] "Python 3" sampleSetup =
    (true, sampleSetup).
Proof.
  pose proof (areRequiredPackagesInstalled_checks_versions compareVersions sampleNames
                [package "jupyter" "1.0.0"] "Python 3" freshSetup) as (_ & Hfresh & _).
  pose proof (areRequiredPackagesInstalled_checks_versions compareVersions sampleNames
                [] "Python 3" sampleSetup) as (Hcached & _).
  split.
  - apply Hfresh; [done|]. intros pkg Hpkg.
    assert (pkg = jupyterPkg) as ->.
    { vm_compute in Hpkg. by apply list_elem_of_singleton in Hpkg. }
    exists "1.0.0". split_and!; [reflexivity|done|by vm_compute].
  - apply Hcached. reflexivity.
Defined.

Lemma upgradePythonPackages_installs_what_is_needed_witness :
  upgradePythonPackages sampleInstallation compareVersions false [package "jupyter" "1.0.0"]
    (getRequiredPackagesForKernel sampleNames "Python 3") freshSetup = freshSetup ∧
  length (streamedCommands
            (upgradePythonPackages sampleInstallation compareVersions true []
               [jupyterPkg] freshSetup)) = 1.
Proof.
  pose proof (upgradePythonPackages_installs_what_is_needed sampleInstallation
                compareVersions sampleNames false [package "jupyter" "1.0.0"] []
                "Python 3" freshSetup) as (_ & _ & _ & _ & _ & Hchecked).
  pose proof (upgradePythonPackages_installs_what_is_needed sampleInstallation
                compareVersions sampleNames true [] [jupyterPkg]
                "Python 3" freshSetup) as (_ & _ & Hforced & _).
  split.
  - apply Hchecked; [done|]. vm_compute. reflexivity.
  - apply Hforced. discriminate.
Defined.

(** *** More on the installation process *)

(** The instance after a failed [configurePackagePaths]: the flag is set,
    nothing runs or is about to, and the promise of [d] is pending. *)
Definition Blocked (d : nat) (s : State) : Prop :=
  installInProgress s = true ∧ running s = [] ∧ configuring s = None ∧
  installCompletion s = Some d ∧ deferreds s !! d = Some Pending.

Lemma run_cons s e events : run s (e :: events) = run (step s e).1 events.
Proof. reflexivity. Qed.

Lemma Blocked_step d s e : Blocked d s → Blocked d (step s e).1.
Proof.
  intros (Hflag & Hrunning & Hconfiguring & Hcompletion & Hpending).
  destruct e as [[]|isPythonRunning|succeeded|succeeded|]; simpl.
  - by rewrite (fromInProgressCheck_in_progress s d).
  - done.
  - destruct (checkingPython s) as [|waiting]; [done|].
    destruct isPythonRunning; simpl; [done|].
    by rewrite (fromInProgressCheck_in_progress _ d).
  - by rewrite Hconfiguring.
  - by rewrite Hrunning.
  - destruct (runningOnSAW s); [done|]. by rewrite Hflag.
Qed.

Lemma Blocked_run d events : ∀ s, Blocked d s → Blocked d (run s events).
Proof.
  induction events as [|e events IH]; intros s Hblocked; [done|].
  rewrite run_cons. by apply IH, Blocked_step.
Qed.

(** X7. If the [configurePackagePaths] awaited by a starting
    [startInstallProcess] fails, that call is rejected and nothing resets
    [_installInProgress]: whatever happens afterwards, the flag stays set,
    no installation runs or starts, and the completion promise of that call
    stays pending, so that later calls are handed a promise that never
    settles. *)
Theorem failed_configure_blocks_installation
    (saw : bool) (before after : list Event) (d : nat) :
  let s := run (initial saw) before in
  configuring s = Some d →
  let failed := step s (ConfigurePackagePathsDone false) in
  let s' := run failed.1 after in
  failed.2 = ReturnsRejected "configurePackagePaths" ∧
  installInProgress s' = true ∧
  installations s' = 0 ∧
  installCompletion s' = Some d ∧
  deferreds s' !! d = Some Pending ∧
  (step s' (StartInstallProcess true)).2 = ReturnsCompletion d.
Proof.
  intros s Hconfiguring failed s'.
  pose proof (Invariant_run saw before) as Hinv. fold s in Hinv.
  destruct (inv_configuring s Hinv d Hconfiguring) as [Hflag Hcompletion].
  destruct (inv_completion s Hinv Hflag) as (d' & Hd' & Hpending).
  assert (d' = d) as -> by congruence.
  pose proof (inv_installations s Hinv) as Hone. unfold installations in Hone.
  rewrite Hconfiguring in Hone.
  assert (Hidle : running s = []) by (destruct (running s); [done|simpl in Hone; lia]).
  assert (Hblocked : Blocked d failed.1).
  { subst failed. simpl. rewrite Hconfiguring. simpl. by split_and!. }
  apply (Blocked_run d after) in Hblocked. fold s' in Hblocked.
  destruct Hblocked as (Hflag' & Hrunning' & Hconfiguring' & Hcompletion' & Hpending').
  split_and!; try done.
  - subst failed. simpl. by rewrite Hconfiguring.
  - unfold installations. by rewrite Hrunning', Hconfiguring'.
  - simpl. by rewrite (fromInProgressCheck_in_progress s' d).
Qed.

Lemma failed_configure_blocks_installation_witness :
  let s' := run (initial false)
              [StartInstallProcess true; ConfigurePackagePathsDone false;
               InstallDependenciesDone true; PromptForPythonInstall] in
  installInProgress s' = true ∧ installations s' = 0 ∧
  (step s' (StartInstallProcess true)).2 = ReturnsCompletion 0.
Proof.
  destruct (failed_configure_blocks_installation false [StartInstallProcess true]
              [InstallDependenciesDone true; PromptForPythonInstall] 0)
    as (_ & Hflag & Hnone & _ & _ & Hreturned); [reflexivity|].
  cbv zeta. split_and!; [exact Hflag|exact Hnone|exact Hreturned].
Defined.

(** X9. When [_installInProgress] is not set nothing is under way, and a
    [startInstallProcess] for an existing python then runs a whole
    installation: it makes one new promise, returns it once
    [configurePackagePaths] has succeeded, and the end of
    [installDependencies] settles that promise, fulfilled on success and
    rejected on failure, and clears the flag, leaving the earlier promises
    as they were. *)
Theorem idle_start_runs_to_completion
    (saw : bool) (events : list Event) (succeeded : bool) :
  let s := run (initial saw) events in
  installInProgress s = false →
  let d := length (deferreds s) in
  let started := step s (StartInstallProcess true) in
  let configured := step started.1 (ConfigurePackagePathsDone true) in
  let finished := step configured.1 (InstallDependenciesDone succeeded) in
  installations s = 0 ∧
  started.2 = StillRunning ∧ installations started.1 = 1 ∧
  configured.2 = ReturnsCompletion d ∧ running configured.1 = [d] ∧
  installInProgress finished.1 = false ∧ installations finished.1 = 0 ∧
  deferreds finished.1 =
    deferreds s ++ [if succeeded then Fulfilled
                    else RejectedWith "msgDependenciesInstallationFailed"].
Proof.
  intros s Hflag d started configured finished.
  pose proof (Invariant_run saw events) as Hinv. fold s in Hinv.
  assert (Hidle : running s = []).
  { destruct (running s) as [|d' others] eqn:Hr; [done|].
    destruct (inv_running s Hinv d') as [? _]; [rewrite Hr; left|congruence]. }
  assert (Hnone : configuring s = None).
  { destruct (configuring s) as [d'|] eqn:Hc; [|done].
    destruct (inv_configuring s Hinv d' Hc) as [? _]. congruence. }
  subst started configured finished. simpl. unfold fromInProgressCheck.
  rewrite Hflag. simpl. rewrite Hidle. simpl.
  unfold installations, settleCompletion, settle. simpl. rewrite Hidle, Hnone. simpl.
  fold d. rewrite lookup_app_r, Nat.sub_diag by done. simpl.
  split_and!; try done.
  replace d with (length (deferreds s) + 0) by (subst d; lia).
  by rewrite insert_app_r.
Qed.

Lemma idle_start_runs_to_completion_witness :
  deferreds
    (run (initial false)
       [StartInstallProcess true; ConfigurePackagePathsDone true;
        InstallDependenciesDone true]) = [Fulfilled].
Proof.
  destruct (idle_start_runs_to_completion false [] true)
    as (_ & _ & _ & _ & _ & _ & _ & Hdeferreds); [reflexivity|].
  exact Hdeferreds.
Defined.

End JupyterServerInstallation.

(** ** The connection browser ([connection/browser/connectionBrowseTab.ts]) *)
Module ConnectionBrowse.

(** A tree element is an object; [indexOf] tells elements apart by
    identity, which is the number here. *)
Abbreviation TreeElement := nat (only parsing).

(** The classes of [TreeElement], with what [expandableTreeNodes] asks of a
    provider's item. *)
Inductive ElementKind :=
| ProviderElement
| SavedConnections
| ProfileGroup
| Profile
| ServerNode
| ItemFromProvider (collapsible : bool).

(** The elements behind the view: their class, what [element.getChildren()]
    gives, and whether the filter's expression matches their title. *)
Record Elements := {
  kind : TreeElement → ElementKind;
  getChildren : TreeElement → list TreeElement;
  matchesFilter : TreeElement → bool
}.

(** [TreeModel], the input of the tree, with what its [getChildren()]
    gives: the saved connections node and an element for each provider. *)
Record TreeModel := {
  TreeModel_getChildren : list TreeElement
}.

(** The data source and the tree: [_filter] being set, [treeNodes], and the
    elements whose children the tree has fetched. *)
Record View := {
  filterSet : bool;
  treeNodes : list TreeElement;
  fetched : list TreeElement
}.

Section DataSource.
Variable elements : Elements.

Definition isProfileGroup (item : TreeElement) : bool :=
  match kind elements item with ProfileGroup => true | _ => false end.

Definition isCollapsible (item : TreeElement) : bool :=
  match kind elements item with ItemFromProvider c => c | _ => false end.

(** The filter of [DataSource.getChildren]. *)
Definition keepChild (element item : TreeElement) : bool :=
  match kind elements element with
  | SavedConnections | ProfileGroup => isProfileGroup item || matchesFilter elements item
  | ItemFromProvider _ => isCollapsible item || matchesFilter elements item
  | _ => true
  end.

(** What [DataSource.getChildren(element)] pushes onto [treeNodes] and
    returns. *)
Definition shownChildren (filtering : bool) (element : TreeElement) : list TreeElement :=
  match kind elements element with
  | Profile => []
  | _ =>
      let children := getChildren elements element in
      if filtering then filter (fun item => Is_true (keepChild element item)) children
      else children
  end.

(** [DataSource.getChildren(element: TreeModel | TreeElement)]: for the
    [TreeModel] [treeNodes] is emptied first, and its children pass no
    filter, the model being neither a group, the saved connections node nor
    a provider's item. *)
Definition DataSource_getChildren (element : TreeModel + TreeElement) (v : View) : View :=
  match element with
  | inl model =>
      {| filterSet := filterSet v;
         treeNodes := [] ++ TreeModel_getChildren model;
         fetched := fetched v |}
  | inr element =>
      {| filterSet := filterSet v;
         treeNodes := treeNodes v ++ shownChildren (filterSet v) element;
         fetched := fetched v |}
  end.

Definition isExpandable (node : TreeElement) : bool :=
  match kind elements node with
  | ProviderElement | SavedConnections | ProfileGroup => true
  | ItemFromProvider collapsible => collapsible
  | Profile | ServerNode => false
  end.

(** [get expandableTreeNodes] *)
Definition expandableTreeNodes (v : View) : list TreeElement :=
  filter (fun node => Is_true (isExpandable node)) (treeNodes v).

(** Modelled from the spec: [AsyncDataTree.expand] of [vs/base], which is
    not among the sources.  The tree asks the data source for the children
    of an element the first time the element is expanded, and not again. *)
Definition tree_expand (element : TreeElement) (v : View) : View :=
  if bool_decide (element ∈ fetched v) then v
  else DataSource_getChildren (inr element)
         {| filterSet := filterSet v; treeNodes := treeNodes v;
            fetched := element :: fetched v |}.

(** [for (const treeItem of treeItemsToExpand) await this.tree.expand(treeItem)] *)
Definition expandEach (treeItemsToExpand : list TreeElement) (v : View) : View :=
  foldl (fun v treeItem => tree_expand treeItem v) v treeItemsToExpand.

(** The [while] loop of [expandAll], with the batches of elements handed
    to [tree.expand] so far, oldest first.  [None]: out of fuel. *)
Fixpoint expandAllLoop (fuel : nat) (v : View)
    (expandedTreeItems treeItemsToExpand : list TreeElement)
    (batches : list (list TreeElement)) : option (View * list (list TreeElement)) :=
  match treeItemsToExpand with
  | [] => Some (v, batches)
  | _ :: _ =>
      match fuel with
      | 0 => None
      | S fuel' =>
          let v' := expandEach treeItemsToExpand v in
          let expandedTreeItems' := expandedTreeItems ++ treeItemsToExpand in
          expandAllLoop fuel' v' expandedTreeItems'
            (filter (fun el => JsArray.indexOf expandedTreeItems' el = (-1)%Z)
               (expandableTreeNodes v'))
            (batches ++ [treeItemsToExpand])
      end
  end.

Definition expandAll (fuel : nat) (v : View) : option (View * list (list TreeElement)) :=
  expandAllLoop fuel v [] (expandableTreeNodes v) [].

(** A finite tree: every element in sight, and every child of one of
    them, is among the elements of [universe]. *)
Definition finiteTree (universe : list TreeElement) (v : View) : Prop :=
  (∀ n, n ∈ treeNodes v → n ∈ universe) ∧
  (∀ n c, n ∈ universe → c ∈ getChildren elements n → c ∈ universe).

(** A tree proper: the elements in sight and the children the tree has yet
    to fetch are all different objects. *)
Definition properTree (universe : list TreeElement) (v : View) : Prop :=
  NoDup universe ∧
  NoDup (treeNodes v ++
         (filter (fun n => n ∉ fetched v) universe ≫= shownChildren (filterSet v))).
End DataSource.

(** A provider with two folders, the second holding a folder of its own,
    seen right after the root was fetched. *)
Definition sampleElements : Elements :=
  {| kind := fun n =>
       match n with
       | 0 => SavedConnections
       | 1 => ProviderElement
       | 2 | 3 | 5 => ItemFromProvider true
       | 4 | 6 => ItemFromProvider false
       | _ => Profile
       end;
     getChildren := fun n =>
       match n with
       | 0 => [7; 8]
       | 1 => [2; 3]
       | 2 => [4]
       | 3 => [5]
       | 5 => [6]
       | _ => []
       end;
     matchesFilter := fun _ => true |}.

Definition sampleView : View :=
  {| filterSet := false; treeNodes := [0; 1]; fetched := [] |}.

Example expandAll_sample :
  expandAll sampleElements 9 sampleView =
    Some ({| filterSet := false;
             treeNodes := [0; 1; 7; 8; 2; 3; 4; 5; 6];
             fetched := [5; 3; 2; 1; 0] |},
          [[0; 1]; [2; 3]; [5]]).
Proof. vm_compute. reflexivity. Qed.

(** *** Finite and proper trees are kept by [tree.expand] *)

Section ExpandAll.
Variable elements : Elements.
Variable universe : list TreeElement.

Lemma shownChildren_getChildren filtering element c :
  c ∈ shownChildren elements filtering element → c ∈ getChildren elements element.
Proof.
  unfold shownChildren.
  destruct (kind elements element), filtering;
    rewrite ?list_elem_of_filter; try done; try tauto; by intros ?%elem_of_nil.
Qed.

Lemma finiteTree_tree_expand element v :
  element ∈ universe → finiteTree elements universe v →
  finiteTree elements universe (tree_expand elements element v).
Proof.
  intros Helement [Hnodes Hchildren]. unfold tree_expand.
  case_bool_decide; [done|]. split; [|done]. simpl.
  intros n [Hn|Hn]%elem_of_app; [by apply Hnodes|].
  by eapply Hchildren, shownChildren_getChildren.
Qed.

Lemma finiteTree_expandEach items : ∀ v,
  (∀ n, n ∈ items → n ∈ universe) → finiteTree elements universe v →
  finiteTree elements universe (expandEach elements items v).
Proof.
  induction items as [|item items IH]; intros v Hitems Hfinite; [done|].
  apply IH.
  - intros n Hn. apply Hitems. by right.
  - apply finiteTree_tree_expand; [|done]. apply Hitems. by left.
Qed.

(** Taking one element out of those yet to be fetched. *)
Lemma unfetched_Permutation (seen : list TreeElement) element :
  NoDup universe → element ∈ universe → element ∉ seen →
  filter (fun n => n ∉ seen) universe ≡ₚ
    element :: filter (fun n => n ∉ element :: seen) universe.
Proof.
  intros Hnodup Helement Hfresh. apply NoDup_Permutation.
  - by apply NoDup_filter.
  - apply NoDup_cons. split; [|by apply NoDup_filter].
    rewrite list_elem_of_filter, not_elem_of_cons. tauto.
  - intros x. rewrite elem_of_cons, !list_elem_of_filter, not_elem_of_cons.
    destruct (decide (x = element)) as [->|]; tauto.
Qed.

Lemma properTree_tree_expand element v :
  element ∈ universe → properTree elements universe v →
  properTree elements universe (tree_expand elements element v).
Proof.
  intros Helement [Hnodup Hdistinct]. unfold tree_expand.
  case_bool_decide as Hfetched; [done|]. split; [done|]. simpl.
  rewrite (unfetched_Permutation (fetched v) element) in Hdistinct by done.
  rewrite bind_cons in Hdistinct. by rewrite <- (assoc_L (++)).
Qed.

Lemma properTree_expandEach items : ∀ v,
  (∀ n, n ∈ items → n ∈ universe) → properTree elements universe v →
  properTree elements universe (expandEach elements items v).
Proof.
  induction items as [|item items IH]; intros v Hitems Hproper; [done|].
  apply IH.
  - intros n Hn. apply Hitems. by right.
  - apply properTree_tree_expand; [|done]. apply Hitems. by left.
Qed.

(** The elements of the universe not yet handed to [tree.expand]. *)
Definition remaining (expanded : list TreeElement) : nat :=
  length (filter (fun n => n ∉ expanded) universe).

Lemma remaining_decreases expanded x batch :
  x ∈ universe → x ∉ expanded →
  remaining (expanded ++ x :: batch) < remaining expanded.
Proof.
  intros Hx Hfresh. unfold remaining.
  rewrite <- (list_filter_filter_l (fun n => n ∉ expanded ++ x :: batch)
                (fun n => n ∉ expanded)).
  - apply (length_filter_lt _ _ x).
    + by apply list_elem_of_filter.
    + intros Hnot. apply Hnot, elem_of_app. right. by left.
  - intros n Hn Hin. apply Hn, elem_of_app. by left.
Qed.

(** *** The loop *)

(** What holds each time the loop tests its condition: [expanded] is
    [expandedTreeItems], [toExpand] is [treeItemsToExpand]. *)
Record LoopInvariant (v : View) (expanded toExpand : list TreeElement)
    (batches : list (list TreeElement)) : Prop := {
  loop_finite : finiteTree elements universe v;
  loop_batches : mjoin batches = expanded;
  loop_nonempty : ∀ batch, batch ∈ batches → batch ≠ [];
  loop_expandable : ∀ n, n ∈ expanded ++ toExpand →
    isExpandable elements n = true ∧ n ∈ universe;
  loop_fresh : ∀ n, n ∈ toExpand → n ∉ expanded;
  loop_complete : ∀ n, n ∈ expandableTreeNodes elements v → n ∈ expanded ++ toExpand;
  loop_earlier : ∀ i batch n,
    batches !! i = Some batch → n ∈ batch → n ∉ mjoin (take i batches)
}.

Definition nextItems (v : View) (expanded : list TreeElement) : list TreeElement :=
  filter (fun el => JsArray.indexOf expanded el = (-1)%Z) (expandableTreeNodes elements v).

Lemma elem_of_nextItems v expanded n :
  n ∈ nextItems v expanded ↔
  (n ∉ expanded) ∧ Is_true (isExpandable elements n) ∧ n ∈ treeNodes v.
Proof.
  unfold nextItems, expandableTreeNodes.
  by rewrite !list_elem_of_filter, JsArray.indexOf_missing.
Qed.

Lemma LoopInvariant_start v :
  finiteTree elements universe v →
  LoopInvariant v [] (expandableTreeNodes elements v) [].
Proof.
  intros Hfinite. split; try done.
  - by intros batch ?%elem_of_nil.
  - intros n Hn. simpl in Hn. unfold expandableTreeNodes in Hn.
    apply list_elem_of_filter in Hn as [Hexp Hn]. split.
    + by apply Is_true_true.
    + by apply Hfinite.
  - by intros n _ ?%elem_of_nil.
Qed.

Lemma LoopInvariant_step v expanded toExpand batches :
  toExpand ≠ [] →
  LoopInvariant v expanded toExpand batches →
  LoopInvariant (expandEach elements toExpand v) (expanded ++ toExpand)
    (nextItems (expandEach elements toExpand v) (expanded ++ toExpand))
    (batches ++ [toExpand]).
Proof.
  intros Hnonempty [Hfinite Hbatches Hbatch Hexpandable Hfresh Hcomplete Hearlier].
  assert (Hfinite' : finiteTree elements universe (expandEach elements toExpand v)).
  { apply finiteTree_expandEach; [|done].
    intros n Hn. apply Hexpandable, elem_of_app. by right. }
  split.
  - done.
  - by rewrite join_app, Hbatches; simpl; rewrite (right_id_L [] (++)).
  - intros batch [Hin|Hin]%elem_of_app; [by apply Hbatch|].
    by apply list_elem_of_singleton in Hin as ->.
  - intros n [Hn|Hn]%elem_of_app; [by apply Hexpandable|].
    apply elem_of_nextItems in Hn as (_ & Hexp & Hn). split.
    + by apply Is_true_true.
    + by apply Hfinite'.
  - intros n Hn. by apply elem_of_nextItems in Hn as (? & _).
  - intros n Hn. unfold expandableTreeNodes in Hn.
    apply list_elem_of_filter in Hn as [Hexp Hn]. apply elem_of_app.
    destruct (decide (n ∈ expanded ++ toExpand)) as [|Hnot]; [by left|right].
    by apply elem_of_nextItems.
  - intros i batch n Hlookup Hn.
    apply lookup_snoc_Some in Hlookup as [[Hi Hlookup]|[-> <-]].
    + rewrite take_app_le by lia. by eapply Hearlier.
    + rewrite take_app_length, Hbatches. by apply Hfresh.
Qed.

Lemma NoDup_nextItems v expanded :
  properTree elements universe v → NoDup expanded →
  NoDup (expanded ++ nextItems v expanded).
Proof.
  intros [_ Hdistinct] Hexpanded. apply NoDup_app in Hdistinct as (Hnodes & _ & _).
  apply NoDup_app. split_and!; [done| |].
  - intros n Hn Hnext. by apply elem_of_nextItems in Hnext as (? & _).
  - unfold nextItems, expandableTreeNodes. by do 2 apply NoDup_filter.
Qed.

Lemma expandAllLoop_done fuel v expanded batches :
  expandAllLoop elements fuel v expanded [] batches = Some (v, batches).
Proof. by destruct fuel. Qed.

Lemma expandAllLoop_iterate fuel v expanded toExpand batches :
  toExpand ≠ [] →
  expandAllLoop elements (S fuel) v expanded toExpand batches =
    expandAllLoop elements fuel (expandEach elements toExpand v) (expanded ++ toExpand)
      (nextItems (expandEach elements toExpand v) (expanded ++ toExpand))
      (batches ++ [toExpand]).
Proof. by destruct toExpand. Qed.

(** From any state of the loop, as many iterations as there are elements
    left to expand are enough, and the invariant holds on exit. *)
Lemma expandAllLoop_terminates : ∀ k v expanded toExpand batches,
  LoopInvariant v expanded toExpand batches →
  remaining expanded ≤ k →
  ∃ v' batches',
    (∀ fuel, k < fuel →
       expandAllLoop elements fuel v expanded toExpand batches = Some (v', batches')) ∧
    LoopInvariant v' (mjoin batches') [] batches' ∧
    (properTree elements universe v → NoDup (expanded ++ toExpand) →
       NoDup (mjoin batches')).
Proof.
  induction k as [|k IH]; intros v expanded toExpand batches Hinv Hremaining.
  all: destruct (decide (toExpand = [])) as [->|Hnonempty].
  1, 3: exists v, batches; split_and!;
    [intros; apply expandAllLoop_done
    |by rewrite (loop_batches _ _ _ _ Hinv)
    |intros _; by rewrite (loop_batches _ _ _ _ Hinv), (right_id_L [] (++))].
  all: destruct toExpand as [|x batch]; [done|].
  all: assert (Hx : x ∈ universe)
    by (apply (loop_expandable _ _ _ _ Hinv), elem_of_app; right; left).
  all: assert (Hfresh : x ∉ expanded) by (apply (loop_fresh _ _ _ _ Hinv); left).
  all: pose proof (remaining_decreases expanded x batch Hx Hfresh) as Hless.
  { lia. }
  destruct (IH _ _ _ _ (LoopInvariant_step _ _ _ _ Hnonempty Hinv))
    as (v' & batches' & Hrun & Hinv' & Hproper); [lia|].
  exists v', batches'. split_and!; [|done|].
  - intros [|fuel] Hfuel; [lia|].
    rewrite expandAllLoop_iterate by done. apply Hrun. lia.
  - intros Htree Hnodup. apply Hproper.
    + apply properTree_expandEach; [|done].
      intros n Hn. apply (loop_expandable _ _ _ _ Hinv), elem_of_app. by right.
    + apply NoDup_nextItems; [|done].
      apply properTree_expandEach; [|done].
      intros n Hn. apply (loop_expandable _ _ _ _ Hinv), elem_of_app. by right.
Qed.
End ExpandAll.

Definition sampleUniverse : list nat := [0; 1; 2; 3; 4; 5; 6; 7; 8].

Lemma sample_finiteTree : finiteTree sampleElements sampleUniverse sampleView.
Proof.
  split.
  - intros n Hn. apply list_elem_of_In in Hn. apply list_elem_of_In.
    simpl in *. intuition lia.
  - intros n c Hn Hc. apply list_elem_of_In in Hn. apply list_elem_of_In.
    simpl in Hn. destruct Hn as [<-|[<-|[<-|[<-|[<-|[<-|[<-|[<-|[<-|[]]]]]]]]]];
      apply list_elem_of_In in Hc; simpl in *; intuition lia.
Qed.

Lemma sample_properTree : properTree sampleElements sampleUniverse sampleView.
Proof. split; compute_done. Qed.

(** The claim as worded: on every finite tree, no element is handed to
    [tree.expand] twice. *)
Definition expandsEachNodeOnce : Prop :=
  ∀ (elements : Elements) (universe : list TreeElement) (v v' : View)
    (batches : list (list TreeElement)) (fuel : nat),
    finiteTree elements universe v →
    expandAll elements fuel v = Some (v', batches) →
    NoDup (mjoin batches).

(** A group without children, which [treeNodes] holds twice: [treeNodes]
    gets every list that [getChildren] returns pushed on it, and is emptied
    for the [TreeModel] only. *)
Definition loneGroup : Elements :=
  {| kind := fun _ => ProfileGroup;
     getChildren := fun _ => [];
     matchesFilter := fun _ => true |}.

Definition listedTwice : View :=
  {| filterSet := false; treeNodes := [0; 0]; fetched := [] |}.

Example expandAll_listedTwice :
  expandAll loneGroup 2 listedTwice =
    Some ({| filterSet := false; treeNodes := [0; 0]; fetched := [0] |}, [[0; 0]]).
Proof. vm_compute. reflexivity. Qed.

(** The claim as worded fails: the first iteration takes every expandable
    element of [treeNodes], and the filter against [expandedTreeItems] only
    acts from the second iteration on, so that an element [treeNodes] holds
    twice is handed to [tree.expand] twice. *)
Lemma not_expandsEachNodeOnce : ¬ expandsEachNodeOnce.
Proof.
  intros Hclaim.
  assert (Hfinite : finiteTree loneGroup [0] listedTwice).
  { split.
    - intros n Hn. apply list_elem_of_In in Hn. apply list_elem_of_In.
      simpl in *. tauto.
    - intros n c _ Hc. by apply elem_of_nil in Hc. }
  pose proof (Hclaim loneGroup [0] listedTwice _ _ 2 Hfinite expandAll_listedTwice)
    as Honce.
  simpl in Honce. apply NoDup_cons in Honce as [Hfresh _]. apply Hfresh. left.
Qed.

(** C10 (amended). On a finite tree [expandAll] terminates: once the fuel
    exceeds the number of elements it returns, and with the same result.
    Each iteration hands [tree.expand] a non-empty batch of expandable
    elements none of which was in an earlier batch, and the loop exits when
    every expandable element in [treeNodes] has been in a batch.  No element
    is handed to [tree.expand] twice when the elements of the tree are
    distinct objects: without that, an element that [treeNodes] holds twice
    is expanded twice within one iteration. *)
Theorem expandAll_terminates_expanding_once
    (elements : Elements) (universe : list TreeElement) (v : View) :
  finiteTree elements universe v →
  ∃ (v' : View) (batches : list (list TreeElement)),
    (∀ fuel, length universe < fuel → expandAll elements fuel v = Some (v', batches)) ∧
    (∀ batch, batch ∈ batches → batch ≠ []) ∧
    (∀ n, n ∈ mjoin batches → isExpandable elements n = true) ∧
    (∀ i batch n, batches !! i = Some batch → n ∈ batch → n ∉ mjoin (take i batches)) ∧
    (∀ n, n ∈ expandableTreeNodes elements v' → n ∈ mjoin batches) ∧
    (properTree elements universe v → NoDup (mjoin batches)).
Proof.
  intros Hfinite.
  destruct (expandAllLoop_terminates elements universe (length universe) v []
              (expandableTreeNodes elements v) [])
    as (v' & batches & Hrun & Hinv & Hproper).
  - by apply LoopInvariant_start.
  - apply length_filter.
  - exists v', batches. split_and!.
    + exact Hrun.
    + apply (loop_nonempty _ _ _ _ _ _ Hinv).
    + intros n Hn. apply (loop_expandable _ _ _ _ _ _ Hinv). by rewrite (right_id_L [] (++)).
    + apply (loop_earlier _ _ _ _ _ _ Hinv).
    + intros n Hn. rewrite <- (right_id_L [] (++) (mjoin batches)).
      by apply (loop_complete _ _ _ _ _ _ Hinv).
    + intros Htree. apply Hproper; [done|]. simpl.
      destruct Htree as [_ Hdistinct]. apply NoDup_app in Hdistinct as (Hnodes & _ & _).
      unfold expandableTreeNodes. by apply NoDup_filter.
Qed.

Lemma expandAll_terminates_expanding_once_witness :
  ∃ v' batches,
    expandAll sampleElements 10 sampleView = Some (v', batches) ∧
    NoDup (mjoin batches).
Proof.
  destruct (expandAll_terminates_expanding_once sampleElements sampleUniverse sampleView
              sample_finiteTree)
    as (v' & batches & Hrun & _ & _ & _ & _ & Honce).
  exists v', batches. split.
  - apply Hrun. vm_compute. lia.
  - apply Honce, sample_properTree.
Defined.

(** *** What [DataSource.getChildren] shows, and what [expandAll] leaves *)



Section Shown.
Variable elements : Elements.




End Shown.




Section Reveal.
Variable elements : Elements.
Variable universe : list TreeElement.






End Reveal.


(** *** The context key of the tree's menu *)

(** [ContextValueType]: a provider's element with its [id], or a tree item
    with its [contextValue], which may be [undefined]. *)
Inductive ContextValueType :=
| ProviderValue (id : string)
| TreeItemValue (contextValue : option string).

(** [ContextKey]: the two keys bound in the constructor, both [undefined]
    by default, and [_item]. *)
Record ContextKey := {
  contextValueKey : option string;
  treeIdKey : option string;
  item : option ContextValueType
}.

Definition ContextKey_new : ContextKey :=
  {| contextValueKey := None; treeIdKey := None; item := None |}.

Definition ContextKey_reset (this : ContextKey) : ContextKey :=
  {| contextValueKey := None; treeIdKey := None; item := item this |}.

Definition ContextKey_set (value : ContextValueType) (this : ContextKey) : ContextKey :=
  let this := ContextKey_reset this in
  match value with
  | ProviderValue id =>
      {| contextValueKey := contextValueKey this; treeIdKey := Some id; item := Some value |}
  | TreeItemValue contextValue =>
      {| contextValueKey := contextValue; treeIdKey := treeIdKey this; item := Some value |}
  end.

Definition ContextKey_get (this : ContextKey) : option ContextValueType := item this.

Inductive ContextKeyCall :=
| CallSet (value : ContextValueType)
| CallReset.

Definition ContextKey_call (this : ContextKey) (c : ContextKeyCall) : ContextKey :=
  match c with
  | CallSet value => ContextKey_set value this
  | CallReset => ContextKey_reset this
  end.

Definition ContextKey_run (calls : list ContextKeyCall) : ContextKey :=
  foldl ContextKey_call ContextKey_new calls.

(** The value of the last [set] among [calls]. *)
Definition lastSet (calls : list ContextKeyCall) : option ContextValueType :=
  last (omap (fun c => match c with CallSet value => Some value | CallReset => None end)
          calls).

Lemma ContextKey_run_snoc calls c :
  ContextKey_run (calls ++ [c]) = ContextKey_call (ContextKey_run calls) c.
Proof. unfold ContextKey_run. by rewrite foldl_snoc. Qed.

(** X3. After any sequence of [set] and [reset] calls on a [ContextKey],
    [get] returns the value of the most recent [set], a [reset] in between
    notwithstanding, and the two bound keys are never set together: after a
    [set] of a provider's element only [treeId] is set, to its id; after a
    [set] of a tree item only [contextValue] can be, to the item's; after a
    [reset] neither is. *)
Theorem ContextKey_tracks_last_call (calls : list ContextKeyCall) :
  let this := ContextKey_run calls in
  ContextKey_get this = lastSet calls ∧
  (contextValueKey this = None ∨ treeIdKey this = None) ∧
  (contextValueKey this, treeIdKey this) =
    match last calls with
    | Some (CallSet (ProviderValue id)) => (None, Some id)
    | Some (CallSet (TreeItemValue contextValue)) => (contextValue, None)
    | Some CallReset | None => (None, None)
    end.
Proof.
  induction calls as [|c calls IH] using rev_ind; [by split_and!; try left|].
  rewrite ContextKey_run_snoc. cbv zeta in *. destruct IH as (Hget & _ & _).
  unfold lastSet. rewrite omap_app, last_snoc. simpl.
  destruct c as [[id|contextValue]|]; simpl.
  - rewrite last_snoc. split_and!; [done|by left|done].
  - rewrite last_snoc. split_and!; [done|by right|done].
  - rewrite (right_id_L [] (++)). split_and!; [done|by left|done].
Qed.

End ConnectionBrowse.

(** ** The compute and storage page
    ([dashboards/postgres/postgresComputeAndStoragePage.ts])

    The input boxes, the save arguments and the two buttons, as the
    handlers registered by the page change them. *)
Module PostgresComputeAndStoragePage.

Inductive Box :=
| WorkerBox
| CoresLimitBox
| CoresRequestBox
| MemoryLimitBox
| MemoryRequestBox.

#[export] Instance Box_eq_dec : EqDecision Box.
Proof. solve_decision. Defined.

(** A placeholder is a text, or the worker count before [toString()]. *)
Inductive PlaceHolder :=
| PlaceHolderText (text : string)
| PlaceHolderNumber (n : Z).

(** What the page reads and writes of an [InputBoxComponent], [min]
    apart. *)
Record InputBox := {
  value : string;
  valid : bool;
  placeHolder : PlaceHolder
}.

(** A field of [saveArgs]: [workers] holds what [parseInt] gave ([None] for
    [NaN]), the other fields hold text. *)
Inductive SaveArg :=
| Workers (n : option Z)
| Text (text : string).

Inductive Message :=
| InstanceUpdated
| InstanceUpdateFailed (error : string)
| PageDiscardFailed (error : string).

(** The page.  [saveArgs] is indexed by the box that fills the field:
    [workers], [coresLimit], [coresRequest], [memoryLimit],
    [memoryRequest]. *)
Record Page := {
  boxes : Box → InputBox;
  saveArgs : Box → option SaveArg;
  saveButtonEnabled : bool;
  discardButtonEnabled : bool;
  messages : list Message
}.

(** [_postgresModel.config], as far as the page reads it. *)
Record Config := {
  scaleWorkers : option Z;
  scaleShards : option Z;
  requestsCpu : option string;
  limitsCpu : option string;
  requestsMemory : option string;
  limitsMemory : option string
}.

Definition truthy (s : string) : bool := negb (bool_decide (s = "")).

Definition emptyBox : InputBox :=
  {| value := ""; valid := true; placeHolder := PlaceHolderText "" |}.

(** The page as [initializeConfigurationBoxes] and [toolbarContainer] leave
    it. *)
Definition initialPage : Page :=
  {| boxes := fun _ => emptyBox; saveArgs := fun _ => None;
     saveButtonEnabled := false; discardButtonEnabled := false; messages := [] |}.

Definition withBoxes (f : Box → InputBox) (p : Page) : Page :=
  {| boxes := f; saveArgs := saveArgs p; saveButtonEnabled := saveButtonEnabled p;
     discardButtonEnabled := discardButtonEnabled p; messages := messages p |}.

Definition withSaveArgs (f : Box → option SaveArg) (p : Page) : Page :=
  {| boxes := boxes p; saveArgs := f; saveButtonEnabled := saveButtonEnabled p;
     discardButtonEnabled := discardButtonEnabled p; messages := messages p |}.

Definition withButtons (save discard : bool) (p : Page) : Page :=
  {| boxes := boxes p; saveArgs := saveArgs p; saveButtonEnabled := save;
     discardButtonEnabled := discard; messages := messages p |}.

Definition showMessage (m : Message) (p : Page) : Page :=
  {| boxes := boxes p; saveArgs := saveArgs p; saveButtonEnabled := saveButtonEnabled p;
     discardButtonEnabled := discardButtonEnabled p; messages := messages p ++ [m] |}.

(** The boxes, or the fields of [saveArgs], with the one at [b] replaced. *)
Definition update {A} (b : Box) (x : A) (f : Box → A) : Box → A :=
  fun b' => if decide (b' = b) then x else f b'.

(** [box.value = ''] and [box.placeHolder = ...] *)
Definition resetBox (b : Box) (holder : PlaceHolder) (p : Page) : Page :=
  withBoxes
    (update b {| value := ""; valid := valid (boxes p b); placeHolder := holder |} (boxes p)) p.

Definition clearValue (b : Box) (p : Page) : Page :=
  withBoxes
    (update b {| value := ""; valid := valid (boxes p b);
               placeHolder := placeHolder (boxes p b) |} (boxes p)) p.

Definition setSaveArg (b : Box) (arg : option SaveArg) (p : Page) : Page :=
  withSaveArgs (update b arg (saveArgs p)) p.

Section Handlers.
(** [parseInt], and [convertToGibibyteString] of [common/utils], which may
    throw. *)
Context (parseInt : string → option Z)
        (convertToGibibyteString : string → Promise.Outcome string string).

Definition handleOnTextChanged (b : Box) (p : Page) : bool * Page :=
  let component := boxes p b in
  if negb (truthy (value component)) then (false, p)
  else if negb (valid component) then (false, withButtons (saveButtonEnabled p) true p)
  else (true, withButtons true true p).

(** What a box's value becomes in its field of [saveArgs]. *)
Definition argOf (b : Box) (text : string) : SaveArg :=
  match b with
  | WorkerBox => Workers (parseInt text)
  | CoresLimitBox | CoresRequestBox => Text text
  | MemoryLimitBox | MemoryRequestBox => Text (text +:+ "Gi")
  end.

(** The [onTextChanged] handler of box [b]. *)
Definition onTextChanged (b : Box) (p : Page) : Page :=
  let '(changed, p) := handleOnTextChanged b p in
  if changed then setSaveArg b (Some (argOf b (value (boxes p b)))) p
  else setSaveArg b None p.

Definition editWorkerNodeCount (config : option Config) (p : Page) : Page :=
  let currentWorkers :=
    match config with
    | Some c => default (default 0%Z (scaleShards c)) (scaleWorkers c)
    | None => 0%Z
    end in
  setSaveArg WorkerBox None (resetBox WorkerBox (PlaceHolderNumber currentWorkers) p).

(** [if (!current) current = ''] *)
Definition orEmpty (current : option string) : string := default "" current.

Definition editCores (config : option Config) (p : Page) : Page :=
  let p :=
    setSaveArg CoresRequestBox None
      (resetBox CoresRequestBox (PlaceHolderText (orEmpty (config ≫= requestsCpu))) p) in
  setSaveArg CoresLimitBox None
    (resetBox CoresLimitBox (PlaceHolderText (orEmpty (config ≫= limitsCpu))) p).

Definition memoryConversion (current : option string) : Promise.Outcome string string :=
  if truthy (orEmpty current) then convertToGibibyteString (orEmpty current)
  else Promise.Resolved "".

Definition editMemory (config : option Config) : Promise.Task Page string () :=
  request ← Promise.await (memoryConversion (config ≫= requestsMemory));
  _ ← Promise.modify (fun p =>
        setSaveArg MemoryRequestBox None
          (resetBox MemoryRequestBox (PlaceHolderText request) p));
  limit ← Promise.await (memoryConversion (config ≫= limitsMemory));
  Promise.modify (fun p =>
    setSaveArg MemoryLimitBox None (resetBox MemoryLimitBox (PlaceHolderText limit) p)).

Definition editAll (config : option Config) : Promise.Task Page string () :=
  _ ← Promise.modify (editWorkerNodeCount config);
  _ ← Promise.modify (editCores config);
  editMemory config.

(** The click handler of the discard button, with its [try], [catch] and
    [finally]. *)
Definition onDiscardClick (config : option Config) (p : Page) : Page :=
  let p := withButtons (saveButtonEnabled p) false p in
  let '(_, p) :=
    Promise.tryCatch (editAll config)
      (fun error : string => Promise.modify (showMessage (PageDiscardFailed error))) p in
  withButtons false (discardButtonEnabled p) p.

(** The click handler of the save button; [edited] is how the awaited
    [server.edit] settles. *)
Definition onSaveClick (edited : Promise.Outcome string ()) (p : Page) : Page :=
  let p := withButtons false false p in
  let p := clearValue WorkerBox p in
  let p := clearValue CoresRequestBox p in
  let p := clearValue CoresLimitBox p in
  let p := clearValue MemoryRequestBox p in
  let p := clearValue MemoryLimitBox p in
  match edited with
  | Promise.Resolved _ => showMessage InstanceUpdated p
  | Promise.Rejected error => showMessage (InstanceUpdateFailed error) p
  end.

(** [handleServiceUpdated], up to the edits; an exception leaves the page
    where the edits got to. *)
Definition handleServiceUpdated (configLastUpdated : bool) (config : option Config)
    (p : Page) : Page :=
  if configLastUpdated then (editAll config p).2 else p.

(** A handler run: the user changed a box to [text], found valid or not, a
    button was clicked, or the model was updated. *)
Inductive Event :=
| TextChanged (b : Box) (text : string) (isValid : bool)
| DiscardClick (config : option Config)
| SaveClick (edited : Promise.Outcome string ())
| ServiceUpdated (configLastUpdated : bool) (config : option Config).

Definition typeInto (b : Box) (text : string) (isValid : bool) (p : Page) : Page :=
  withBoxes
    (update b {| value := text; valid := isValid; placeHolder := placeHolder (boxes p b) |} (boxes p)) p.

Definition handle (p : Page) (e : Event) : Page :=
  match e with
  | TextChanged b text isValid => onTextChanged b (typeInto b text isValid p)
  | DiscardClick config => onDiscardClick config p
  | SaveClick edited => onSaveClick edited p
  | ServiceUpdated configLastUpdated config =>
      handleServiceUpdated configLastUpdated config p
  end.

Definition handleAll (events : list Event) : Page := foldl handle initialPage events.
End Handlers.

Section PageProperties.
Context (parseInt : string → option Z)
        (convertToGibibyteString : string → Promise.Outcome string string).

#[local] Abbreviation editAll := (editAll convertToGibibyteString).
#[local] Abbreviation handle := (handle parseInt convertToGibibyteString).
#[local] Abbreviation handleAll := (handleAll parseInt convertToGibibyteString).

Lemma update_eq {A} b (x : A) f : update b x f b = x.
Proof. unfold update. by rewrite decide_True. Qed.

Lemma update_ne {A} b b' (x : A) f : b' ≠ b → update b x f b' = f b'.
Proof. intros. unfold update. by rewrite decide_False. Qed.

(** The edits touch the buttons and the messages of no page, and only
    clear fields of [saveArgs]. *)
Lemma editAll_keeps config p :
  let p' := (editAll config p).2 in
  saveButtonEnabled p' = saveButtonEnabled p ∧
  discardButtonEnabled p' = discardButtonEnabled p ∧
  messages p' = messages p ∧
  (∀ b, saveArgs p' b = None ∨ saveArgs p' b = saveArgs p b) ∧
  (∀ b, b ∈ [WorkerBox; CoresRequestBox; CoresLimitBox] →
     saveArgs p' b = None ∧ value (boxes p' b) = "").
Proof.
  unfold PostgresComputeAndStoragePage.editAll, editMemory, mbind, task_bind,
    Promise.bind, Promise.await, Promise.modify. simpl.
  destruct (memoryConversion _ _) as [request|error]; simpl;
    [destruct (memoryConversion _ _) as [limit|error]; simpl|].
  all: split_and!; try done.
  all: try (intros b; unfold update;
            repeat (case_decide; [by left|]); by right).
  all: intros b Hb; apply list_elem_of_In in Hb; simpl in Hb;
    destruct Hb as [<-|[<-|[<-|[]]]]; unfold update; simpl; by split.
Qed.

(** When no conversion throws, the edits clear every box and field. *)
Lemma editAll_resolved config p :
  (editAll config p).1 = Promise.Resolved () →
  ∀ b, saveArgs (editAll config p).2 b = None ∧ value (boxes (editAll config p).2 b) = "".
Proof.
  unfold PostgresComputeAndStoragePage.editAll, editMemory, mbind, task_bind,
    Promise.bind, Promise.await, Promise.modify. simpl.
  destruct (memoryConversion _ _) as [request|error]; simpl; [|done].
  destruct (memoryConversion _ _) as [limit|error]; simpl; [|done].
  intros _ b. by destruct b.
Qed.

Lemma handleAll_snoc events e : handleAll (events ++ [e]) = handle (handleAll events) e.
Proof. unfold PostgresComputeAndStoragePage.handleAll. by rewrite foldl_snoc. Qed.

(** What holds of the page after any handlers. *)
Definition PageInvariant (events : list Event) (p : Page) : Prop :=
  (saveButtonEnabled p = true → discardButtonEnabled p = true) ∧
  (∀ b arg, saveArgs p b = Some arg →
     ∃ text, TextChanged b text true ∈ events ∧ text ≠ "" ∧ arg = argOf parseInt b text).

Lemma PageInvariant_more events e p :
  PageInvariant events p → PageInvariant (events ++ [e]) p.
Proof.
  intros [Hbuttons Hargs]. split; [done|]. intros b arg Harg.
  destruct (Hargs b arg Harg) as (text & Hin & ?). exists text.
  split; [|done]. apply elem_of_app. by left.
Qed.

Lemma PageInvariant_cleared events p p' :
  PageInvariant events p →
  (saveButtonEnabled p' = true → discardButtonEnabled p' = true) →
  (∀ b, saveArgs p' b = None ∨ saveArgs p' b = saveArgs p b) →
  PageInvariant events p'.
Proof.
  intros [_ Hargs] Hbuttons Hcleared. split; [done|]. intros b arg Harg.
  destruct (Hcleared b) as [Hb|Hb]; rewrite Hb in Harg; [done|]. by apply Hargs.
Qed.

Lemma PageInvariant_handle events e p :
  PageInvariant events p → PageInvariant (events ++ [e]) (handle p e).
Proof.
  intros Hinv. destruct e as [b text isValid|config|edited|configLastUpdated config].
  - destruct Hinv as [Hbuttons Hargs]. simpl.
    unfold onTextChanged, handleOnTextChanged, typeInto. simpl. rewrite update_eq. simpl.
    destruct (truthy text) eqn:Htext; simpl; [destruct isValid; simpl|].
    all: split; simpl; try done.
    all: intros b' arg; destruct (decide (b' = b)) as [->|Hne];
      [rewrite update_eq|rewrite update_ne by done].
    all: try done.
    all: try (intros Harg; destruct (Hargs b' arg Harg) as (text' & Hin & ?);
              exists text'; split; [apply elem_of_app; by left|done]).
    intros [= <-]. rewrite update_eq. simpl. exists text. split_and!; [|by intros ->|done].
    apply elem_of_app. right. left.
  - apply PageInvariant_more. simpl. unfold onDiscardClick, Promise.tryCatch.
    pose proof (editAll_keeps config (withButtons (saveButtonEnabled p) false p))
      as (_ & _ & _ & Hcleared & _).
    destruct (editAll config _) as [[[]|error] p'] eqn:Hedit; simpl in *.
    all: eapply PageInvariant_cleared; [exact Hinv|done|done].
  - apply PageInvariant_more. simpl.
    eapply PageInvariant_cleared; [exact Hinv| |].
    + by destruct edited.
    + intros b. right. by destruct edited.
  - apply PageInvariant_more. simpl. unfold handleServiceUpdated.
    destruct configLastUpdated; [|done].
    pose proof (editAll_keeps config p) as (Hsave & Hdiscard & _ & Hcleared & _).
    eapply PageInvariant_cleared; [exact Hinv| |done].
    cbv zeta in *. rewrite Hsave, Hdiscard. apply Hinv.
Qed.

(** X12. After any sequence of text changes, button clicks and model
    updates, the save button is enabled only if the discard button is, and
    every field of [saveArgs] that is set holds what its box gave for a
    non-empty text that was typed into that box and found valid: the
    integer parsed from it for the workers, the text for the cores, the
    text followed by [Gi] for the memory. *)
Theorem page_invariant (events : list Event) :
  let p := handleAll events in
  (saveButtonEnabled p = true → discardButtonEnabled p = true) ∧
  (∀ b arg, saveArgs p b = Some arg →
     ∃ text, TextChanged b text true ∈ events ∧ text ≠ "" ∧ arg = argOf parseInt b text).
Proof.
  induction events as [|e events IH] using rev_ind.
  - split; [done|]. intros b arg. done.
  - rewrite handleAll_snoc. by apply PageInvariant_handle.
Qed.

(** X13. A click on the discard button always leaves both buttons
    disabled, empties the worker and cores boxes and clears their fields of
    [saveArgs].  When no memory conversion throws, every box is emptied and
    every field cleared, and nothing is shown; when one throws, the failure
    is shown as [pageDiscardFailed]. *)
Theorem discard_clears (config : option Config) (p : Page) :
  let p' := onDiscardClick convertToGibibyteString config p in
  saveButtonEnabled p' = false ∧ discardButtonEnabled p' = false ∧
  (∀ b, b ∈ [WorkerBox; CoresRequestBox; CoresLimitBox] →
     saveArgs p' b = None ∧ value (boxes p' b) = "") ∧
  match (editAll config (withButtons (saveButtonEnabled p) false p)).1 with
  | Promise.Resolved _ =>
      messages p' = messages p ∧ ∀ b, saveArgs p' b = None ∧ value (boxes p' b) = ""
  | Promise.Rejected error => messages p' = messages p ++ [PageDiscardFailed error]
  end.
Proof.
  intros p'. subst p'. unfold onDiscardClick, Promise.tryCatch.
  pose proof (editAll_keeps config (withButtons (saveButtonEnabled p) false p))
    as (_ & Hdiscard & Hmessages & _ & Hthree).
  pose proof (editAll_resolved config (withButtons (saveButtonEnabled p) false p)) as Hall.
  destruct (editAll config _) as [[[]|error] p1]; simpl in *.
  - split_and!; try done. by apply Hall.
  - split_and!; try done. by rewrite Hmessages.
Qed.
End PageProperties.

Definition sampleParseInt (text : string) : option Z :=
  if bool_decide (text = "3") then Some 3%Z else None.

Definition sampleConvert (size : string) : Promise.Outcome string string :=
  if bool_decide (size = "1Gi") then Promise.Resolved "1"
  else Promise.Rejected "unknown unit".

Lemma page_invariant_witness :
  let p := handleAll sampleParseInt sampleConvert
             [TextChanged MemoryLimitBox "2" true; TextChanged WorkerBox "3" true;
              TextChanged WorkerBox "x" false; SaveClick (Promise.Resolved ())] in
  saveArgs p MemoryLimitBox = Some (Text "2Gi") ∧ saveArgs p WorkerBox = None ∧
  ∃ text, saveArgs p MemoryLimitBox = Some (argOf sampleParseInt MemoryLimitBox text).
Proof.
  intros p.
  assert (Hmemory : saveArgs p MemoryLimitBox = Some (Text "2Gi")) by reflexivity.
  split_and!; [done|reflexivity|].
  destruct (page_invariant sampleParseInt sampleConvert
              [TextChanged MemoryLimitBox "2" true; TextChanged WorkerBox "3" true;
               TextChanged WorkerBox "x" false; SaveClick (Promise.Resolved ())])
    as [_ Hargs].
  destruct (Hargs MemoryLimitBox (Text "2Gi") Hmemory) as (text & _ & _ & Harg).
  exists text. by rewrite <- Harg.
Defined.

Lemma discard_clears_witness :
  let config := Some {| scaleWorkers := None; scaleShards := Some 2%Z;
                        requestsCpu := Some "1"; limitsCpu := None;
                        requestsMemory := Some "512Mi"; limitsMemory := Some "1Gi" |} in
  let p := handleAll sampleParseInt sampleConvert [TextChanged WorkerBox "3" true] in
  let p' := onDiscardClick sampleConvert config p in
  saveButtonEnabled p' = false ∧ saveArgs p' WorkerBox = None ∧
  placeHolder (boxes p' WorkerBox) = PlaceHolderNumber 2 ∧
  messages p' = [PageDiscardFailed "unknown unit"].
Proof.
  intros config p p'.
  destruct (discard_clears sampleConvert config p) as (Hsave & _ & Hthree & Hshown).
  split_and!.
  - exact Hsave.
  - apply Hthree. left.
  - reflexivity.
  - exact Hshown.
Defined.

End PostgresComputeAndStoragePage.
